(** * Movie script parser: a shallow embedding of
      [src/data/parse_movie_script.py] and the properties of its
      line-by-line parsing pass.

    Python values are modelled as follows.
    - [str] is [string]; a character is a code point in U+0000..U+00FF
      (Rocq's 8-bit [ascii]), and [isspace], [isdigit] and [lower] are
      Python's on that range.
    - [io.StringIO] is a record of its contents and its stream position;
      [seek] and [truncate] raise [ValueError] on a negative argument, as
      in Python, so positions handed to them are integers ([Z]).
    - [collections.Counter] is a [gmap string nat] read with default 0,
      the [set] of character names is a [gset string], and [sorted] is a
      merge sort by code points.
    - An exception is a value of [exn]; code that can raise lives in the
      [result] monad.
    - The [entries] list is shared between the parser state and the
      [Scene] built from it, but the state rebinds [entries] to a fresh
      list (or the pass ends) before the list is appended to again, so
      the scenes are modelled by value. *)

From Stdlib Require Import ZArith Ascii String DecimalString.
From stdpp Require Import base option list gmap strings sorting.

Open Scope string_scope.
Open Scope list_scope.
Open Scope nat_scope.

(** ** Characters *)

Definition TAB : ascii := ascii_of_nat 9.
Definition LF : ascii := ascii_of_nat 10.
Definition HYPHEN : ascii := ascii_of_nat 45.

Definition between (lo hi : nat) (c : ascii) : bool :=
  (lo <=? nat_of_ascii c)%nat && (nat_of_ascii c <=? hi)%nat.

(** [str.isspace] on one code point: TAB..CR, FS..US, space, NEL, NBSP. *)
Definition isspace (c : ascii) : bool :=
  between 9 13 c || between 28 32 c || between 133 133 c || between 160 160 c.

(** The class [\d] of [re] on [str] patterns: decimal digits. *)
Definition isdigit (c : ascii) : bool := between 48 57 c.

(** [str.lower] on one code point: A..Z and the Latin-1 capitals. *)
Definition lower_char (c : ascii) : ascii :=
  if between 65 90 c || (between 192 222 c && negb (between 215 215 c))
  then ascii_of_nat (nat_of_ascii c + 32)
  else c.

Definition is_char (x c : ascii) : bool := bool_decide (c = x).

(** ** Strings *)

(** Truth value of a [str]: non-empty. *)
Definition truthy (s : string) : bool :=
  match s with "" => false | String _ _ => true end.

(** Truth value of an [Optional[str]]: not [None] and non-empty. *)
Definition truthy_opt (o : option string) : bool :=
  match o with Some s => truthy s | None => false end.

Fixpoint str_lower (s : string) : string :=
  match s with
  | "" => ""
  | String c s' => String (lower_char c) (str_lower s')
  end.

Fixpoint lstrip (p : ascii → bool) (s : string) : string :=
  match s with
  | "" => ""
  | String c s' => if p c then lstrip p s' else s
  end.

Fixpoint rstrip (p : ascii → bool) (s : string) : string :=
  match s with
  | "" => ""
  | String c s' =>
      match rstrip p s' with
      | "" => if p c then "" else String c ""
      | r => String c r
      end
  end.

(** [s.strip(chars)] with the character set given as a predicate. *)
Definition strip_chars (p : ascii → bool) (s : string) : string :=
  rstrip p (lstrip p s).

(** [s.strip()] *)
Definition str_strip (s : string) : string := strip_chars isspace s.

(** [s.split()]: the maximal runs of non-whitespace characters.  [tok] is
    the token being read, reversed. *)
Fixpoint split_ws_from (tok : string) (s : string) : list string :=
  match s with
  | "" => if truthy tok then [String.rev tok] else []
  | String c s' =>
      if isspace c
      then (if truthy tok then [String.rev tok] else []) ++ split_ws_from "" s'
      else split_ws_from (String c tok) s'
  end.

Definition str_split (s : string) : list string := split_ws_from "" s.

(** [s.split(sep)] for a one-character separator: every occurrence
    splits, empty fields are kept. *)
Fixpoint str_split_on (sep : ascii) (s : string) : list string :=
  match s with
  | "" => [""]
  | String c s' =>
      if is_char sep c then "" :: str_split_on sep s'
      else match str_split_on sep s' with
           | f :: fs => String c f :: fs
           | [] => [String c ""]
           end
  end.

Fixpoint str_take (n : nat) (s : string) : string :=
  match n, s with
  | S n', String c s' => String c (str_take n' s')
  | _, _ => ""
  end.

Fixpoint str_drop (n : nat) (s : string) : string :=
  match n, s with
  | S n', String _ s' => str_drop n' s'
  | _, _ => s
  end.

Fixpoint str_repeat (c : ascii) (n : nat) : string :=
  match n with
  | O => ""
  | S n' => String c (str_repeat c n')
  end.

(** ** Exceptions *)

Inductive exn : Set := ValueError | IndexError | OSError.

Inductive result (A : Type) : Type :=
  | Ok (a : A)
  | Raise (e : exn).
Arguments Ok {A} a.
Arguments Raise {A} e.

#[global] Instance result_ret : MRet result := λ A a, Ok a.
#[global] Instance result_bind : MBind result := λ A B f m,
  match m with
  | Ok a => f a
  | Raise e => Raise e
  end.

Definition returns {A} (m : result A) : Prop := ∃ a, m = Ok a.

(** ** A fragment of the [re] module

    Patterns are sequences of items; [+] is applied to character classes
    only, which is all the parser's pattern needs.  [re.match] anchors at
    the start of the string and accepts a match of any prefix. *)

Inductive re_item : Type :=
  | Bol                               (* ^ *)
  | Eol                               (* $ *)
  | One (p : ascii → bool)            (* a character of the class *)
  | Many1 (p : ascii → bool).         (* class+ *)

(** [$] without [re.MULTILINE]: the end of the string, or just before a
    newline that ends the string. *)
Definition at_eol (s : string) : bool :=
  match s with
  | "" => true
  | String c "" => is_char LF c
  | _ => false
  end.

(** [class+] followed by the rest of the pattern [k]: one character of
    the class, then either more of them or the rest. *)
Fixpoint many1_then (p : ascii → bool) (k : string → bool) (s : string) : bool :=
  match s with
  | String c s' => p c && (many1_then p k s' || k s')
  | "" => false
  end.

Fixpoint re_match_from (pat : list re_item) : bool → string → bool :=
  match pat with
  | [] => λ _ _, true
  | Bol :: pat' => λ at_start s, at_start && re_match_from pat' at_start s
  | Eol :: pat' => λ at_start s, at_eol s && re_match_from pat' at_start s
  | One p :: pat' => λ _ s,
      match s with
      | String c s' => p c && re_match_from pat' false s'
      | "" => false
      end
  | Many1 p :: pat' => λ _ s, many1_then p (re_match_from pat' false) s
  end.

(** Truth value of [re.match(pat, s)]. *)
Definition re_match (pat : list re_item) (s : string) : bool :=
  re_match_from pat true s.

(** [.] : any character except a newline. *)
Definition re_dot (c : ascii) : bool := negb (is_char LF c).

(** ** [io.StringIO] *)

Record StringIO : Type := mkStringIO {
  getvalue : string;
  position : nat
}.

(** [StringIO()] *)
Definition StringIO_new : StringIO := mkStringIO "" 0.

Definition tell (b : StringIO) : Z := Z.of_nat (position b).

(** [b.seek(cookie, whence)]; [whence] 0 is absolute, 1 and 2 accept the
    offset 0 only. *)
Definition seek (b : StringIO) (cookie : Z) (whence : Z) : result StringIO :=
  if (whence =? 0)%Z then
    if (cookie <? 0)%Z then Raise ValueError
    else Ok (mkStringIO (getvalue b) (Z.to_nat cookie))
  else if (whence =? 1)%Z then
    if (cookie =? 0)%Z then Ok b else Raise OSError
  else if (whence =? 2)%Z then
    if (cookie =? 0)%Z then Ok (mkStringIO (getvalue b) (String.length (getvalue b)))
    else Raise OSError
  else Raise ValueError.

(** [b.read(size)] for [size >= 0]: the characters read and the buffer
    with its position advanced. *)
Definition read (b : StringIO) (size : nat) : string * StringIO :=
  let n := size `min` (String.length (getvalue b) - position b) in
  (str_take n (str_drop (position b) (getvalue b)),
   mkStringIO (getvalue b) (position b + n)).

(** [b.truncate(size)]; [None] stands for the current position.  The
    position does not move. *)
Definition truncate (b : StringIO) (size : option Z) : result StringIO :=
  let size := default (tell b) size in
  if (size <? 0)%Z then Raise ValueError
  else Ok (mkStringIO (str_take (Z.to_nat size) (getvalue b)) (position b)).

(** [b.write(s)]: overwrite at the position, padding with NUL when the
    position is past the end. *)
Definition write (b : StringIO) (s : string) : StringIO :=
  let v := getvalue b in
  let pad := str_repeat (ascii_of_nat 0) (position b - String.length v) in
  mkStringIO
    (str_take (position b) (v +:+ pad) +:+ s
       +:+ str_drop (position b + String.length s) v)
    (position b + String.length s).

(** ** The document tree *)

Module Dialogue.
Record t : Type := mk {
  character : string;
  text : string
}.
End Dialogue.

Module Entry.
Record t : Type := mk {
  description : string;
  dialogue : option Dialogue.t
}.
End Entry.

Module Scene.
Record t : Type := mk {
  name : string;
  entries : list Entry.t
}.
End Scene.

(** [collections.Counter] with [str] keys. *)
Abbreviation Counter := (gmap string nat).

Definition counter_get (k : string) (c : Counter) : nat := default 0 (c !! k).

(** [c[k] += n] *)
Definition counter_add (k : string) (n : nat) (c : Counter) : Counter :=
  <[k := counter_get k c + n]> c.

(** [sorted(xs)] on strings: ascending by code points. *)
Definition sorted (xs : list string) : list string := merge_sort String.le xs.

Module ParsedObject.
Record t : Type := mk {
  scenes : list Scene.t;
  stats : Counter;
  character_vocabulary : list string
}.
End ParsedObject.

Module ParserState.
Record t : Type := mk {
  scene_text : StringIO;
  dialogue_text : StringIO;
  scene_name : string;
  character_name : option string;
  stats : Counter;
  character_vocabulary : gset string;
  scenes : list Scene.t;
  entries : list Entry.t
}.
End ParserState.

(** ** The parser *)

Module MovieScriptParser.
Import ParserState.

(** [_reset_buffer]: seek to the start and truncate there. *)
Definition _reset_buffer (scene_text : StringIO) : result StringIO :=
  b ← seek scene_text 0 0;
  truncate b (Some 0%Z).

(** The pattern [^\d+\t.+$]. *)
Definition scene_pattern : list re_item :=
  [Bol; Many1 isdigit; One (is_char TAB); Many1 re_dot; Eol].

(** [_get_scene_name]: the second tab-separated field of a line that
    matches the pattern, [None] for any other line.  Indexing a list
    out of range raises [IndexError]. *)
Definition _get_scene_name (line : string) : result (option string) :=
  if re_match scene_pattern line then
    match str_split_on TAB line !! 1%nat with
    | Some field => Ok (Some field)
    | None => Raise IndexError
    end
  else Ok None.

(** [_count_leading_tabs] *)
Fixpoint _count_leading_tabs (input_string : string) : nat :=
  match input_string with
  | String c s' => if is_char TAB c then S (_count_leading_tabs s') else 0
  | "" => 0
  end.

(** [_concatenate_text] *)
Definition _concatenate_text (buffer : StringIO) (new_line : string)
  : result StringIO :=
  (* Move the cursor to the end of the buffer *)
  b ← seek buffer 0 2;
  (* Check if the buffer ends with a "-" *)
  b ← (if (tell b >? 0)%Z then
         b ← seek b (tell b - 1) 0;
         let '(last, b) := read b 1 in
         if bool_decide (last = String HYPHEN "") then
           (* Remove the trailing "-" by truncating *)
           b ← seek b (tell b - 1) 0;
           truncate b None
         else Ok b
       else Ok b);
  (* Append the new string *)
  Ok (write b (str_lower (str_strip new_line) +:+ " ")).

(** [_add_entry] *)
Definition _add_entry (parser_state : t) : result t :=
  let scene_text_string := getvalue (scene_text parser_state) in
  let dialogue_text_string := getvalue (dialogue_text parser_state) in
  let active := truthy_opt (character_name parser_state) in
  let entry :=
    Entry.mk scene_text_string
      (match character_name parser_state with
       | Some (String _ _ as who) => Some (Dialogue.mk who dialogue_text_string)
       | _ => None
       end) in
  (* Do some stats counting *)
  let scene_word_count := length (str_split scene_text_string) in
  let dialogue_word_count := length (str_split dialogue_text_string) in
  let stats1 :=
    if active then
      counter_add "total_words_in_dialogues" dialogue_word_count
        (counter_add "total_dialogues" 1 (stats parser_state))
    else stats parser_state in
  let vocabulary1 :=
    match character_name parser_state with
    | Some (String _ _ as who) => character_vocabulary parser_state ∪ {[ who ]}
    | _ => character_vocabulary parser_state
    end in
  let stats2 :=
    counter_add "total_words" (scene_word_count + dialogue_word_count) stats1 in
  (* Reset the dialogue buffer and character name *)
  dialogue_text' ← _reset_buffer (dialogue_text parser_state);
  scene_text' ← _reset_buffer (scene_text parser_state);
  Ok (mk scene_text' dialogue_text' (scene_name parser_state) None
         stats2 vocabulary1 (scenes parser_state)
         (entries parser_state ++ [entry])).

(** The test [scene_text.tell() > 0 or character_name]. *)
Definition pending (parser_state : t) : bool :=
  (tell (scene_text parser_state) >? 0)%Z
  || truthy_opt (character_name parser_state).

(** [_add_scene] *)
Definition _add_scene (parser_state : t) : result t :=
  (* Check for the last description *)
  st ← (if pending parser_state then _add_entry parser_state
        else Ok parser_state);
  Ok (mk (scene_text st) (dialogue_text st) (scene_name st)
         (character_name st) (stats st) (character_vocabulary st)
         (scenes st ++ [Scene.mk (scene_name st) (entries st)])
         (entries st)).

(** The state the pass starts from. *)
Definition initial_state : t :=
  mk StringIO_new StringIO_new "SCRIPT TITLE" None ∅ ∅ [] [].

(** The body of the loop [for line in file_like]. *)
Definition parse_line (parser_state : t) (line : string) : result t :=
  let line := strip_chars (is_char LF) line in
  (* Skip empty lines *)
  if negb (truthy line) then Ok parser_state
  else
    (* Is it a new scene starting ? *)
    new_scene_name ← _get_scene_name line;
    match new_scene_name with
    | Some (String _ _ as new_name) =>
        (* This is a new scene *)
        st ← _add_scene parser_state;
        (* Reset the parser state *)
        scene_text' ← _reset_buffer (scene_text st);
        dialogue_text' ← _reset_buffer (dialogue_text st);
        Ok (mk scene_text' dialogue_text' new_name None
               (stats st) (character_vocabulary st) (scenes st) [])
    | _ =>
        (* Existing scene continues *)
        let num_tabs := _count_leading_tabs line in
        if bool_decide (num_tabs = 6) then
          st ← (if truthy_opt (character_name parser_state)
                then _add_entry parser_state    (* Entry ends with a movie character, add it *)
                else Ok parser_state);
          (* This is a new character beginning to speak *)
          Ok (mk (scene_text st) (dialogue_text st) (scene_name st)
                 (Some (str_strip line))
                 (stats st) (character_vocabulary st) (scenes st) (entries st))
        else if bool_decide (num_tabs ∈ [4; 5])
                && bool_decide (character_name parser_state ≠ None) then
          (* Character is still speaking, keep adding the dialogue *)
          dialogue_text' ← _concatenate_text (dialogue_text parser_state) line;
          Ok (mk (scene_text parser_state) dialogue_text'
                 (scene_name parser_state) (character_name parser_state)
                 (stats parser_state) (character_vocabulary parser_state)
                 (scenes parser_state) (entries parser_state))
        else
          st ← (if truthy_opt (character_name parser_state) then
                  (* Entry ends with a movie character, add it *)
                  st ← _add_entry parser_state;
                  Ok (mk (scene_text st) (dialogue_text st) (scene_name st)
                         None
                         (stats st) (character_vocabulary st) (scenes st)
                         (entries st))
                else Ok parser_state);
          (* Add the new scene description *)
          scene_text' ← _concatenate_text (scene_text st) line;
          Ok (mk scene_text' (dialogue_text st) (scene_name st)
                 (character_name st) (stats st) (character_vocabulary st)
                 (scenes st) (entries st))
    end.

(** The whole loop: the lines are consumed in order, an exception ends
    the pass. *)
Fixpoint parse_lines (parser_state : t) (file_like : list string)
  : result t :=
  match file_like with
  | [] => Ok parser_state
  | line :: rest =>
      st ← parse_line parser_state line;
      parse_lines st rest
  end.

(** What follows the loop: the last scene and the two counts. *)
Definition finish (parser_state : t) : result ParsedObject.t :=
  st ← (if pending parser_state then _add_scene parser_state  (* Add the last scene *)
        else Ok parser_state);
  let stats1 :=
    <["total_characters" := size (character_vocabulary st)]> (stats st) in
  let stats2 := <["total_scenes" := length (scenes st)]> stats1 in
  Ok (ParsedObject.mk (scenes st) stats2
        (sorted (elements (character_vocabulary st)))).

(** [_parse_text_script]: [file_like] is the sequence of lines the
    iteration yields. *)
Definition _parse_text_script (file_like : list string)
  : result ParsedObject.t :=
  st ← parse_lines initial_state file_like;
  finish st.

End MovieScriptParser.

(** * Properties *)

Import ParserState MovieScriptParser.

(** ** Definitions used in the statements *)

(** What [_concatenate_text] removes: a hyphen that ends the string. *)
Fixpoint chop_hyphen (s : string) : string :=
  match s with
  | "" => ""
  | String c "" => if bool_decide (c = HYPHEN) then "" else s
  | String c s' => String c (chop_hyphen s')
  end.

(** The name a heading line gives to the scene it opens, [None] for a
    line that is not a heading. *)
Definition heading_name (line : string) : option string :=
  match _get_scene_name line with
  | Ok (Some (String _ _ as new_name)) => Some new_name
  | _ => None
  end.

Inductive line_kind : Type :=
  | Blank
  | Heading (new_name : string)
  | Cue
  | Continuation
  | Description.

(** The branch [parse_line] takes, given the active character. *)
Definition classify (active : option string) (raw : string) : line_kind :=
  let line := strip_chars (is_char LF) raw in
  if negb (truthy line) then Blank
  else match heading_name line with
       | Some new_name => Heading new_name
       | None =>
           let num_tabs := _count_leading_tabs line in
           if bool_decide (num_tabs = 6) then Cue
           else if bool_decide (num_tabs ∈ [4; 5]) && bool_decide (active ≠ None)
                then Continuation
                else Description
       end.

(** The entry [_add_entry] builds. *)
Definition entry_of (st : ParserState.t) : Entry.t :=
  Entry.mk (getvalue (scene_text st))
    (match character_name st with
     | Some (String _ _ as who) => Some (Dialogue.mk who (getvalue (dialogue_text st)))
     | _ => None
     end).

Definition stats_after_entry (st : ParserState.t) : Counter :=
  let words := length (str_split (getvalue (scene_text st)))
               + length (str_split (getvalue (dialogue_text st))) in
  counter_add "total_words" words
    (if truthy_opt (character_name st) then
       counter_add "total_words_in_dialogues"
         (length (str_split (getvalue (dialogue_text st))))
         (counter_add "total_dialogues" 1 (stats st))
     else stats st).

Definition vocabulary_after_entry (st : ParserState.t) : gset string :=
  match character_name st with
  | Some (String _ _ as who) => character_vocabulary st ∪ {[ who ]}
  | _ => character_vocabulary st
  end.

(** The state after [_add_entry]. *)
Definition flush (st : ParserState.t) : ParserState.t :=
  mk StringIO_new StringIO_new (scene_name st) None
     (stats_after_entry st) (vocabulary_after_entry st) (scenes st)
     (entries st ++ [entry_of st]).

(** The state after [_add_scene]. *)
Definition close_scene (st : ParserState.t) : ParserState.t :=
  let st := if pending st then flush st else st in
  mk (scene_text st) (dialogue_text st) (scene_name st) (character_name st)
     (stats st) (character_vocabulary st)
     (scenes st ++ [Scene.mk (scene_name st) (entries st)]) (entries st).

(** The buffer after [_concatenate_text]. *)
Definition appended (b : StringIO) (line : string) : StringIO :=
  let v := chop_hyphen (getvalue b) +:+ (str_lower (str_strip line) +:+ " ") in
  mkStringIO v (String.length v).

(** The state after one line. *)
Definition after_line (st : ParserState.t) (raw : string) : ParserState.t :=
  let line := strip_chars (is_char LF) raw in
  match classify (character_name st) raw with
  | Blank => st
  | Heading new_name =>
      let st := close_scene st in
      mk StringIO_new StringIO_new new_name None
         (stats st) (character_vocabulary st) (scenes st) []
  | Cue =>
      let st := if truthy_opt (character_name st) then flush st else st in
      mk (scene_text st) (dialogue_text st) (scene_name st)
         (Some (str_strip line))
         (stats st) (character_vocabulary st) (scenes st) (entries st)
  | Continuation =>
      mk (scene_text st) (appended (dialogue_text st) line)
         (scene_name st) (character_name st)
         (stats st) (character_vocabulary st) (scenes st) (entries st)
  | Description =>
      let st := if truthy_opt (character_name st) then flush st else st in
      mk (appended (scene_text st) line) (dialogue_text st) (scene_name st)
         (character_name st) (stats st) (character_vocabulary st)
         (scenes st) (entries st)
  end.

(** The document built from the state the loop ends in. *)
Definition document (st : ParserState.t) : ParsedObject.t :=
  let st := if pending st then close_scene st else st in
  ParsedObject.mk (scenes st)
    (<["total_scenes" := length (scenes st)]>
       (<["total_characters" := size (character_vocabulary st)]> (stats st)))
    (sorted (elements (character_vocabulary st))).


(** A buffer positioned at its end. *)
Definition at_end (b : StringIO) : Prop :=
  position b = String.length (getvalue b).

(** Text that is empty or ends with the separating space. *)
Definition spaced (v : string) : Prop := v = "" ∨ ∃ body, v = body +:+ " ".

(** What holds of the state between two lines of the pass. *)
Record wf_state (st : ParserState.t) : Prop := mk_wf_state {
  wf_scene_at_end : at_end (scene_text st);
  wf_dialogue_at_end : at_end (dialogue_text st);
  wf_scene_spaced : spaced (getvalue (scene_text st));
  wf_dialogue_spaced : spaced (getvalue (dialogue_text st));
  wf_dialogue_character :
    getvalue (dialogue_text st) ≠ "" → character_name st ≠ None
}.

(** The entries of all scenes, in document order. *)
Definition all_entries (scs : list Scene.t) : list Entry.t := scs ≫= Scene.entries.

(** The [Dialogue] objects reachable through the scenes. *)
Definition dialogues (scs : list Scene.t) : list Dialogue.t :=
  omap Entry.dialogue (all_entries scs).

(** Whitespace-separated tokens of the strings of one entry. *)
Definition entry_words (e : Entry.t) : nat :=
  length (str_split (Entry.description e))
  + from_option (λ d, length (str_split (Dialogue.text d))) 0 (Entry.dialogue e).

Definition document_words (scs : list Scene.t) : nat :=
  sum_list_with entry_words (all_entries scs).

(** The scenes start with the synthetic title scene. *)
Definition title_scene_first (scs : list Scene.t) : Prop :=
  ∃ es rest, scs = Scene.mk "SCRIPT TITLE" es :: rest.

(** The line opens a scene; the active character plays no part in it. *)
Definition is_heading (raw : string) : bool :=
  match classify None raw with Heading _ => true | _ => false end.

(** A line of spaces and tabs only. *)
Definition blank_chars (line : string) : bool :=
  bool_decide (lstrip (λ c, is_char " "%char c || is_char TAB c) line = "").

(** Tab-indented lines for the examples. *)
Definition tabs (n : nat) (s : string) : string := str_repeat TAB n +:+ s.
Definition tab : string := tabs 1 "".
Definition dq : string := String (ascii_of_nat 34) "".
Definition ln (s : string) : string := s +:+ String LF "".

Definition kind_is_blank (k : line_kind) : bool :=
  match k with Blank => true | _ => false end.

(** All characters of the string are in the class. *)
Fixpoint str_all (p : ascii → bool) (s : string) : bool :=
  match s with
  | "" => true
  | String c s' => p c && str_all p s'
  end.

(** What the pass has established about the first scene: nothing is
    closed yet and the scene being read is the title scene, or the
    closed scenes start with the title scene. *)
Definition title_inv (heading_seen : bool) (st : ParserState.t) : Prop :=
  (heading_seen = false ∧ scenes st = [] ∧ scene_name st = "SCRIPT TITLE")
  ∨ title_scene_first (scenes st).

(** The character of every dialogue built so far is in the vocabulary. *)
Definition vocabulary_covers (st : ParserState.t) : Prop :=
  ∀ d, d ∈ dialogues (scenes st) ++ omap Entry.dialogue (entries st) →
       Dialogue.character d ∈ character_vocabulary st.

(** The line is not empty after the newlines are stripped. *)
Definition is_nonblank (raw : string) : bool :=
  truthy (strip_chars (is_char LF) raw).

(** A cue line whose character name is empty: six tabs followed by
    white space only. *)
Definition empty_cue (raw : string) : bool :=
  match classify None raw with
  | Cue => negb (truthy (str_strip (strip_chars (is_char LF) raw)))
  | _ => false
  end.

(** The dialogues and the words built so far, in closed scenes and in
    the scene being read. *)
Definition dialogues_so_far (st : ParserState.t) : list Dialogue.t :=
  dialogues (scenes st) ++ omap Entry.dialogue (entries st).

Definition words_so_far (st : ParserState.t) : nat :=
  document_words (scenes st) + sum_list_with entry_words (entries st).

(** The counters and the vocabulary account for what has been built. *)
Record accounted (st : ParserState.t) : Prop := mk_accounted {
  acc_dialogues :
    counter_get "total_dialogues" (stats st) = length (dialogues_so_far st);
  acc_words :
    counter_get "total_words" (stats st) = words_so_far st;
  acc_vocabulary :
    ∀ who, who ∈ character_vocabulary st →
           ∃ d, d ∈ dialogues_so_far st ∧ Dialogue.character d = who
}.

(** The state between two lines when no cue line had an empty name: the
    character name is [None] or non-empty, and entries of the scene
    being read are followed by pending content. *)
Record tidy (st : ParserState.t) : Prop := mk_tidy {
  tidy_wf : wf_state st;
  tidy_named : truthy_opt (character_name st) = false → character_name st = None;
  tidy_entries : entries st ≠ [] → pending st = true;
  tidy_accounted : accounted st
}.

(** Something has been read: a scene is closed or content is pending. *)
Definition started (st : ParserState.t) : Prop :=
  scenes st ≠ [] ∨ pending st = true.

(** What the tests look at. *)
Definition entry_counts (doc : ParsedObject.t) : list nat :=
  (λ s, length (Scene.entries s)) <$> ParsedObject.scenes doc.

Definition speakers (s : Scene.t) : list (option string) :=
  (λ e, Dialogue.character <$> Entry.dialogue e) <$> Scene.entries s.

Definition stat (k : string) (doc : ParsedObject.t) : nat :=
  counter_get k (ParsedObject.stats doc).

(** The texts of [tests/test_data.py], as the lines that iterating over
    [StringIO(text)] yields: each line with its newline, the last one
    without. *)

Definition script_empty_scenes_text : list string :=
  [ ln "";
    ln (tabs 1 "Title");
    ln (("1" +:+ tab +:+ "SCENE NAME 1"));
    ln "";
    ln (("2" +:+ tab +:+ "SCENE NAME 2"));
    ln "";
    ln (("2" +:+ tab +:+ "SCENE NAME 3"));
    ln ("THE END") ].

Definition script_only_character_no_description_text : list string :=
  [ ln "";
    ln (tabs 1 "Title");
    ln (("1" +:+ tab +:+ "SCENE NAME 1"));
    ln (tabs 1 ("Some scene description" +:+ tab));
    ln (("2" +:+ tab +:+ "SCENE NAME 2"));
    ln (tabs 6 "CHARACTER X");
    ln (tabs 4 ("Some dialogue." +:+ tab));
    ln ("THE END");
    tabs 1 "" ].

Definition script_only_description_text : list string :=
  [ ln "";
    ln (tabs 1 "Title");
    ln (("1" +:+ tab +:+ "SCENE NAME 1"));
    ln (tabs 1 ("Some scene description" +:+ tab));
    ln (("2" +:+ tab +:+ "SCENE NAME 2"));
    ln (tabs 1 ("More scene description" +:+ tab));
    ln ("THE END");
    tabs 1 "" ].

Definition script_mixed_text_text : list string :=
  [ ln (tabs 4 "The Fifth Element");
    ln "";
    ln (tabs 4 "An original script");
    ln (tabs 4 "by");
    ln (tabs 4 "Luc Besson");
    ln "";
    ln (tabs 4 "Revisions by");
    ln (tabs 4 "Luc Besson");
    ln (tabs 4 "and");
    ln (tabs 4 "Robert Mark Kamen");
    ln "";
    ln (tabs 4 "August 1995 Draft");
    ln "";
    ln (tabs 4 "Gaumont and Les Films du Dauphin");
    ln "";
    ln ("FADE IN:");
    ln "";
    ln (("1" +:+ tab +:+ "EXT.  DESERT  NILE RIVER  VALLEY - DAY"));
    ln "";
    ln (tabs 1 "Somewhere in the Nile at the edge of the desert.");
    ln "";
    ln (tabs 1 "CREDITS  ROLL");
    ln "";
    ln (tabs 1 ("WRITTEN:" +:+ tab +:+ "EGYPT 1913"));
    ln "";
    ln (tabs 1 "OMAR and his mule zigzag along the bottom of sun scorched dunes.");
    ln "";
    ln (("2" +:+ tab +:+ "EXT.  TEMPLE  EXCAVATION - DAY"));
    ln "";
    ln (tabs 1 "The mule and the boy finally reach a camp.  A few tents dwarfed by a huge");
    ln ("temple door jutting out of the sand.  The camp is deserted except for");
    ln ("some kids by the temple entrance holding large mirrors, reflecting light");
    ln ("into the temple.");
    ln (tabs 1 "Omar leaves his mule in the shade, seizes two goatskins and slips inside");
    ln ("the temple.");
    ln "";
    ln (("3" +:+ tab +:+ "INT.  TEMPLE - DAY"));
    ln "";
    ln (tabs 1 "Omar makes his way uneasily down a pillared corridor that opens into a");
    ln ("vast room where an old scientist stands on a small wooden ladder in front of");
    ln ("the wall across the room.  PROFESSOR MASSIMO PACOLI. A young man is beside");
    ln ("him, BILLY MASTERSON, age 25, an American student. He has a large sketchpad in");
    ln ("his hands.  Behind them AZIZ, age 10, whose job is to hold the last");
    ln ("mirror which shines light into the expansive room.");
    ln "";
    ln (tabs 6 "PROFESSOR");
    ln (tabs 5 "(deciphering)");
    ln (tabs 4 (dq +:+ "..when the three planets are in eclipse.." +:+ dq));
    ln "";
    ln (tabs 1 "His fingers trace across the wall which is covered with symbols and");
    ln ("strange hieroglyphs as he deciphers.");
    ln "";
    ln (tabs 6 "PROFESSOR");
    ln (tabs 4 (dq +:+ "..the black hole like a door is open..."));
    ln (tabs 4 ("Evil comes ... sowing terror and chaos..." +:+ dq));
    ln (tabs 4 "See?  The snake, Billy.  The Ultimate Evil");
    ln (tabs 4 "... make sure you get the snake!");
    ln "";
    ln (tabs 1 "The Professor points emphatically to the snake, the symbol of Evil,");
    ln ("coming through the door between the three planets in eclipse.  C.U.");
    ln ("Billy's hand sketches the snake quickly.  He is a natural artist.");
    ln "";
    ln (tabs 6 "BILLY");
    ln (tabs 4 "And when is this door opening snake act");
    ln (tabs 4 "supposed to occur?");
    ln "";
    ln (tabs 1 "The Professor's fingers touch the signs.");
    ln "";
    ln ("THE END") ].

Definition script_mixed_text_2_text : list string :=
  [ ln "";
    ln (tabs 1 "Some title");
    ln (("283" +:+ tab +:+ "INT.  LABORATORY"));
    ln "";
    ln (tabs 1 "We are in the Nucleological Laboratory that gave birth to Leeloo in the");
    ln ("beginning of our story.  The President enters the lab followed by a group");
    ln ("of officials in ceremonial dress.");
    ln "";
    ln (tabs 6 "MUNRO");
    ln (tabs 4 "Mr. President, let me introduce you to");
    ln (tabs 4 "Professor Mactilburgh, who runs the center.");
    ln "";
    ln (tabs 6 "MACTILBURGH");
    ln (tabs 4 "It's an honor to receive you. Mr. President.");
    ln "";
    ln (tabs 6 "PRESIDENT");
    ln (tabs 5 "(beaming)");
    ln (tabs 4 "Yes.. Well? Where are our two heroes?");
    ln "";
    ln (tabs 6 "MACTILBURGH");
    ln (tabs 4 "They were so tired from their ordeal that");
    ln (tabs 4 "we put them in the reactor this morning..");
    ln "";
    ln (tabs 6 "PRESIDENT");
    ln (tabs 4 "I have 19 more meetings after this one");
    ln (tabs 4 "Professor..");
    ln "";
    ln (tabs 6 "PROFESSOR");
    ln (tabs 4 "Of course.. Let me see if they're revived.");
    ln "";
    ln (tabs 6 "AIDE");
    ln (tabs 4 "We go live in one minute, Mr. President.");
    ln "";
    ln (tabs 1 "Mactilburgh goes to the reactor and opens a small slot which allows him");
    ln ("to see what is going on under the blue shield.");
    ln "";
    ln (tabs 1 "Leeloo and Korben are naked, arms wrapped around each other, kissing and");
    ln ("probably engaged in hoppi hoppa.");
    ln (tabs 1 "Mactilburgh looks troubled.");
    ln "";
    ln (tabs 6 "MACTILBURGH");
    ln (tabs 4 "I.. uh.. they need five more minutes,");
    ln (tabs 4 "Mr. President.");
    ln "";
    ln (tabs 1 "The President, pressed for time, looks over to his aide who in struggling");
    ln ("with a phone call.");
    ln "";
    ln (tabs 6 "AIDE");
    ln (tabs 4 "No ma'am... I tried... No ma'am...");
    ln "";
    ln (tabs 6 "PRESIDENT");
    ln (tabs 4 "Who is it?");
    ln "";
    ln (tabs 6 "AIDE");
    ln (tabs 4 "Some woman... claims she's Korben's");
    ln (tabs 4 "mother...");
    ln "";
    ln (tabs 6 "PRESIDENT");
    ln (tabs 4 "Give it here...");
    ln "";
    ln (tabs 1 "The President takes the phone and goes to the window.");
    ln "";
    ln (tabs 6 "PRESIDENT");
    ln (tabs 4 "Mrs. Dallas, this in the President.");
    ln (tabs 4 "On behalf of the entire Federation,");
    ln (tabs 4 "I would like to thank...");
    ln "";
    ln (tabs 6 "MOTHER (V.O.)");
    ln (tabs 4 "Don't pull that crap with me, Finger...");
    ln (tabs 4 "I'd recognize that trash can voice of");
    ln (tabs 4 "yours in a dark alley during a rain storm.");
    ln (tabs 4 "You tell that worthless no account son");
    ln (tabs 4 "of mine he should plotz for the way he's");
    ln (tabs 4 "ignored his mother... when I think of all I");
    ln (tabs 4 "sacrificed for him...");
    ln "";
    ln (("284" +:+ tab +:+ "EXT.  NEW YORK"));
    ln "";
    ln ("THE END") ].


(** ** The methods of [ParsedObject] *)

(** [enumerate(xs)] *)
Definition enumerate {A} (xs : list A) : list (nat * A) :=
  imap (λ i x, (i, x)) xs.

(** The dict built by a comprehension over [pairs]: a later pair
    overwrites an earlier one with the same key. *)
Definition dict_of `{Countable K} {V} (pairs : list (K * V)) : gmap K V :=
  foldl (λ m p, <[p.1 := p.2]> m) ∅ pairs.

(** [get_vocabulary_to_label_mapping] *)
Definition get_vocabulary_to_label_mapping (self : ParsedObject.t)
  : gmap string nat :=
  dict_of ((λ p, (p.2, p.1)) <$> enumerate (ParsedObject.character_vocabulary self)).

(** [get_label_to_vocabulary_mapping] *)
Definition get_label_to_vocabulary_mapping (self : ParsedObject.t)
  : gmap nat string :=
  dict_of (enumerate (ParsedObject.character_vocabulary self)).

(** *** [json.dumps] of a record of the dataset

    The default encoder: separators [", "] and [": "], keys in insertion
    order, and every character outside U+0020..U+007E escaped. *)

Definition QUOTE : ascii := ascii_of_nat 34.
Definition BACKSLASH : ascii := ascii_of_nat 92.

Definition hex_digit (n : nat) : ascii :=
  if n <? 10 then ascii_of_nat (48 + n) else ascii_of_nat (87 + n).

Definition json_escape_char (c : ascii) : string :=
  let n := nat_of_ascii c in
  if is_char QUOTE c then String BACKSLASH (String QUOTE "")
  else if is_char BACKSLASH c then String BACKSLASH (String BACKSLASH "")
  else if n =? 8 then String BACKSLASH "b"
  else if n =? 12 then String BACKSLASH "f"
  else if n =? 10 then String BACKSLASH "n"
  else if n =? 13 then String BACKSLASH "r"
  else if n =? 9 then String BACKSLASH "t"
  else if between 32 126 c then String c ""
  else String BACKSLASH
         ("u00" +:+ String (hex_digit (n / 16)) (String (hex_digit (n mod 16)) "")).

Fixpoint json_escape (s : string) : string :=
  match s with
  | "" => ""
  | String c s' => json_escape_char c +:+ json_escape s'
  end.

Definition json_string (s : string) : string :=
  String QUOTE (json_escape s +:+ String QUOTE "").

(** [str(n)] of a non-negative [int]. *)
Definition repr_int (n : nat) : string :=
  NilEmpty.string_of_uint (Nat.to_uint n).

(** [json.dumps({"text": text, "label": label})] *)
Definition json_dumps_record (text : string) (label : nat) : string :=
  "{" +:+ json_string "text" +:+ ": " +:+ json_string text +:+ ", "
      +:+ json_string "label" +:+ ": " +:+ repr_int label +:+ "}".

(** *** [save_character_dialogue_dataset_in_json_format]

    The file system is what the export meets of it: whether
    [open(output_filename, "w")] succeeds, and whether the write of
    [data] to the file that holds [file] so far succeeds.  Where one of
    them does not, [OSError] is raised. *)
Record file_system : Type := mk_file_system {
  opens : string → bool;
  accepts : string → string → bool
}.

(** The file is the text written to it; it starts empty (mode ["w"]).
    The function returns after the last entry, or leaves the loop with
    [KeyError] at a character that has no label, the file keeping what
    was written before, or fails with [OSError]; what the file holds
    after a failed write is left open. *)
Inductive export_outcome : Type :=
  | Written (file : string)
  | KeyError (key : string) (file : string)
  | Failed (e : exn).

(** The inner loop [for e in entry.entries]: the label is looked up
    while the argument of the first [file.write] is built, then the
    record and the newline are written. *)
Fixpoint save_entries (fs : file_system)
    (vocabulary_to_label_mapping : gmap string nat)
    (file : string) (es : list Entry.t) : export_outcome :=
  match es with
  | [] => Written file
  | e :: es' =>
      match Entry.dialogue e with
      | Some d =>
          match vocabulary_to_label_mapping !! Dialogue.character d with
          | Some label =>
              let record := json_dumps_record (Dialogue.text d) label in
              if accepts fs file record then
                if accepts fs (file +:+ record) (String LF "") then
                  save_entries fs vocabulary_to_label_mapping
                    ((file +:+ record) +:+ String LF "") es'
                else Failed OSError
              else Failed OSError
          | None => KeyError (Dialogue.character d) file
          end
      | None => save_entries fs vocabulary_to_label_mapping file es'
      end
  end.

(** The outer loop [for entry in self.scenes]. *)
Fixpoint save_scenes (fs : file_system)
    (vocabulary_to_label_mapping : gmap string nat)
    (file : string) (scs : list Scene.t) : export_outcome :=
  match scs with
  | [] => Written file
  | s :: scs' =>
      match save_entries fs vocabulary_to_label_mapping file (Scene.entries s) with
      | Written file' => save_scenes fs vocabulary_to_label_mapping file' scs'
      | outcome => outcome
      end
  end.

Definition save_character_dialogue_dataset_in_json_format
    (fs : file_system) (self : ParsedObject.t) (output_filename : string)
  : export_outcome :=
  let vocabulary_to_label_mapping := get_vocabulary_to_label_mapping self in
  if opens fs output_filename then
    save_scenes fs vocabulary_to_label_mapping "" (ParsedObject.scenes self)
  else Failed OSError.

(** *** [from_text_file]

    Iterating over a text stream yields the lines of its text, each with
    its terminating newline; a last line without one is yielded as it
    is.  [cur] is the line being read, reversed. *)
Fixpoint readlines_from (cur : string) (text : string) : list string :=
  match text with
  | "" => if truthy cur then [String.rev cur] else []
  | String c text' =>
      if is_char LF c then String.rev (String c cur) :: readlines_from "" text'
      else readlines_from (String c cur) text'
  end.

Definition readlines (text : string) : list string := readlines_from "" text.

(** [from_text_file] on a file that opens; [text] is its text as the
    stream delivers it, decoded and with the newlines translated. *)
Definition from_text_file (text : string) : result ParsedObject.t :=
  _parse_text_script (readlines text).

(** ** Definitions used in further statements *)

(** Concatenation of a list of strings. *)
Definition str_concat (ss : list string) : string := foldr String.app "" ss.

(** The output file opens and every write succeeds. *)
Definition reliable (fs : file_system) (output_filename : string) : Prop :=
  opens fs output_filename = true ∧ ∀ file data, accepts fs file data = true.

(** A file system on which every file opens and every write succeeds. *)
Definition working : file_system := mk_file_system (λ _, true) (λ _ _, true).


(** The line written for a dialogue that has the label [label]. *)
Definition dataset_line (d : Dialogue.t) (label : nat) : string :=
  json_dumps_record (Dialogue.text d) label +:+ String LF "".

(** Printable ASCII: U+0020..U+007E. *)
Definition printable (c : ascii) : bool := between 32 126 c.

Fixpoint count_char (x : ascii) (s : string) : nat :=
  match s with
  | "" => 0
  | String c s' => (if is_char x c then 1 else 0) + count_char x s'
  end.

(** The names given by the heading lines, in input order. *)
Definition heading_names (lines : list string) : list string :=
  omap (λ raw, match classify None raw with
               | Heading new_name => Some new_name
               | _ => None
               end) lines.

(** The non-empty names given by the cue lines, in input order. *)
Definition cue_name (raw : string) : option string :=
  match classify None raw with
  | Cue =>
      match str_strip (strip_chars (is_char LF) raw) with
      | "" => None
      | who => Some who
      end
  | _ => None
  end.

Definition cue_names (lines : list string) : list string := omap cue_name lines.

(** The cues accounted for by a state: the dialogues counted and the
    character who is speaking. *)
Definition cues_counted (st : ParserState.t) : nat :=
  counter_get "total_dialogues" (stats st)
  + (if truthy_opt (character_name st) then 1 else 0).

Definition cues_known (st : ParserState.t) : gset string :=
  character_vocabulary st
  ∪ match character_name st with
    | Some (String _ _ as who) => {[ who ]}
    | _ => ∅
    end.

(** A string that does not start with a character of the class. *)
Definition head_outside (p : ascii → bool) (s : string) : Prop :=
  match s with
  | "" => True
  | String c _ => p c = false
  end.

(** The last character of a string. *)
Fixpoint str_last (s : string) : option ascii :=
  match s with
  | "" => None
  | String c "" => Some c
  | String _ s' => str_last s'
  end.

(** The line as [_concatenate_text] appends it. *)
Definition normalised (line : string) : string :=
  str_lower (str_strip line) +:+ " ".

(** Text as the buffers hold it: in lower case, and empty or ending
    with the separating space. *)
Definition normal_text (v : string) : Prop := str_lower v = v ∧ spaced v.

(** What holds of every entry the parser builds. *)
Record entry_ok (e : Entry.t) : Prop := mk_entry_ok {
  entry_not_empty : Entry.description e ≠ "" ∨ Entry.dialogue e ≠ None;
  entry_description_normal : normal_text (Entry.description e);
  entry_dialogue_ok :
    ∀ d, Entry.dialogue e = Some d →
         Dialogue.character d ≠ ""
         ∧ str_strip (Dialogue.character d) = Dialogue.character d
         ∧ normal_text (Dialogue.text d)
}.

Record clean (st : ParserState.t) : Prop := mk_clean {
  clean_wf : wf_state st;
  clean_scene_text : str_lower (getvalue (scene_text st)) = getvalue (scene_text st);
  clean_dialogue_text :
    str_lower (getvalue (dialogue_text st)) = getvalue (dialogue_text st);
  clean_name : ∀ who, character_name st = Some who → str_strip who = who;
  clean_entries : Forall entry_ok (entries st);
  clean_scenes : Forall entry_ok (all_entries (scenes st))
}.

(** ** Strings and buffers *)

Lemma str_app_nil_l (s : string) : "" +:+ s = s.
Proof. reflexivity. Qed.

Lemma str_app_cons (c : ascii) (s t : string) :
  String c s +:+ t = String c (s +:+ t).
Proof. reflexivity. Qed.

Lemma str_app_nil_r (s : string) : s +:+ "" = s.
Proof. induction s as [|c s IH]; [done|]. by rewrite str_app_cons, IH. Qed.

Lemma str_app_assoc (s t u : string) : (s +:+ t) +:+ u = s +:+ (t +:+ u).
Proof. induction s as [|c s IH]; [done|]. by rewrite !str_app_cons, IH. Qed.

Lemma str_length_app (s t : string) :
  String.length (s +:+ t) = String.length s + String.length t.
Proof. induction s as [|c s IH]; [done|]. rewrite str_app_cons. cbn. by rewrite IH. Qed.

Lemma str_take_app (s t : string) : str_take (String.length s) (s +:+ t) = s.
Proof.
  induction s as [|c s IH]; [by destruct t|].
  rewrite str_app_cons. cbn. by rewrite IH.
Qed.

Lemma str_drop_app (s t : string) : str_drop (String.length s) (s +:+ t) = t.
Proof. induction s as [|c s IH]; [by destruct t|]. by rewrite str_app_cons. Qed.

Lemma str_take_all (s : string) : str_take (String.length s) s = s.
Proof. pose proof (str_take_app s "") as H. by rewrite str_app_nil_r in H. Qed.

Lemma str_drop_ge (s : string) (n : nat) :
  String.length s ≤ n → str_drop n s = "".
Proof.
  revert n. induction s as [|c s IH]; intros [|n] Hn; cbn in *; try done; try lia.
  apply IH. lia.
Qed.

(** A string is empty or has a last character. *)
Lemma str_snoc_cases (s : string) :
  s = "" ∨ ∃ body c, s = body +:+ String c "".
Proof.
  induction s as [|c s IH]; [by left|]. right.
  destruct IH as [->|(body & d & ->)].
  - by exists "", c.
  - by exists (String c body), d.
Qed.

Lemma chop_hyphen_snoc (body : string) (c : ascii) :
  chop_hyphen (body +:+ String c "")
  = if bool_decide (c = HYPHEN) then body else body +:+ String c "".
Proof.
  induction body as [|d body IH]; [by rewrite str_app_nil_l|].
  rewrite !str_app_cons. cbn [chop_hyphen]. rewrite IH.
  destruct body; [rewrite !str_app_nil_l|rewrite !str_app_cons]; by case_bool_decide.
Qed.

Lemma _reset_buffer_spec (b : StringIO) : _reset_buffer b = Ok StringIO_new.
Proof. done. Qed.

(** [_concatenate_text] never raises: it rewrites the buffer to its old
    contents without a final hyphen, followed by the normalised line and
    one space, and leaves the position at the end. *)
Lemma bind_Ok {A B} (a : A) (f : A → result B) : (Ok a ≫= f) = f a.
Proof. reflexivity. Qed.

Lemma seek_end (b : StringIO) :
  seek b 0 2 = Ok (mkStringIO (getvalue b) (String.length (getvalue b))).
Proof. reflexivity. Qed.

Lemma seek_abs (b : StringIO) (n : nat) :
  seek b (Z.of_nat n) 0 = Ok (mkStringIO (getvalue b) n).
Proof.
  unfold seek. cbn [Z.eqb].
  destruct (Z.ltb_spec (Z.of_nat n) 0); [lia|]. by rewrite Nat2Z.id.
Qed.

Lemma seek_back (b : StringIO) (n : nat) :
  position b = S n → seek b (tell b - 1) 0 = Ok (mkStringIO (getvalue b) n).
Proof.
  intros Hp. unfold tell. rewrite Hp.
  replace (Z.of_nat (S n) - 1)%Z with (Z.of_nat n) by lia. apply seek_abs.
Qed.

Lemma truncate_here (b : StringIO) :
  truncate b None = Ok (mkStringIO (str_take (position b) (getvalue b)) (position b)).
Proof.
  unfold truncate, tell. cbn [default].
  destruct (Z.ltb_spec (Z.of_nat (position b)) 0); [lia|]. by rewrite Nat2Z.id.
Qed.

Lemma read_last (body : string) (c : ascii) :
  read (mkStringIO (body +:+ String c "") (String.length body)) 1
  = (String c "", mkStringIO (body +:+ String c "") (S (String.length body))).
Proof.
  unfold read. cbn [getvalue position].
  rewrite str_length_app, str_drop_app. cbn [String.length].
  replace (1 `min` (String.length body + 1 - String.length body)) with 1 by lia.
  by rewrite Nat.add_1_r.
Qed.

Lemma write_at_end (v s : string) :
  write (mkStringIO v (String.length v)) s
  = mkStringIO (v +:+ s) (String.length (v +:+ s)).
Proof.
  unfold write. cbn [getvalue position].
  rewrite Nat.sub_diag. cbn [str_repeat].
  rewrite str_app_nil_r, str_take_all, str_drop_ge by lia.
  by rewrite str_app_nil_r, str_length_app.
Qed.

(** [_concatenate_text] never raises: it rewrites the buffer to its old
    contents without a final hyphen, followed by the normalised line and
    one space, and leaves the position at the end. *)
Lemma _concatenate_text_spec (b : StringIO) (new_line : string) :
  let v := chop_hyphen (getvalue b) +:+ (str_lower (str_strip new_line) +:+ " ") in
  _concatenate_text b new_line = Ok (mkStringIO v (String.length v)).
Proof.
  destruct b as [v p]. cbn [getvalue].
  set (w := str_lower (str_strip new_line) +:+ " ").
  unfold _concatenate_text. rewrite seek_end, bind_Ok. cbn [getvalue].
  destruct (str_snoc_cases v) as [->|(body & c & ->)].
  { transitivity (Ok (write (mkStringIO "" (String.length "")) w)); [done|].
    by rewrite write_at_end. }
  rewrite chop_hyphen_snoc.
  assert (Hlen : String.length (body +:+ String c "") = S (String.length body)).
  { rewrite str_length_app. cbn. lia. }
  rewrite Hlen. unfold tell at 1. cbn [position].
  rewrite Z.gtb_ltb.
  destruct (Z.ltb_spec 0 (Z.of_nat (S (String.length body)))); [|lia].
  rewrite (seek_back _ (String.length body)), bind_Ok by done.
  cbn [getvalue]. rewrite read_last. cbv beta iota.
  case_bool_decide as Hc.
  - injection Hc as ->. rewrite bool_decide_eq_true_2 by done.
    rewrite (seek_back _ (String.length body)), bind_Ok by done.
    rewrite truncate_here, bind_Ok. cbn [getvalue position].
    by rewrite str_take_app, write_at_end.
  - rewrite bool_decide_eq_false_2 by (intros ->; apply Hc; done).
    by rewrite bind_Ok, <-Hlen, write_at_end.
Qed.

(** ** The parser never raises

    Each line is one of five kinds, and the loop body is a total function
    of the state. *)

Lemma str_split_on_length (sep : ascii) (s : string) :
  1 ≤ length (str_split_on sep s).
Proof.
  induction s as [|c s IH]; cbn [str_split_on]; [cbn; lia|].
  destruct (is_char sep c); [cbn; lia|].
  destruct (str_split_on sep s); cbn in *; lia.
Qed.

Lemma str_split_on_cons_length (sep c : ascii) (s : string) :
  length (str_split_on sep s) ≤ length (str_split_on sep (String c s)).
Proof.
  cbn [str_split_on]. destruct (is_char sep c); [cbn; lia|].
  pose proof (str_split_on_length sep s).
  destruct (str_split_on sep s); cbn in *; lia.
Qed.

Lemma many1_then_tab (p : ascii → bool) (k : string → bool) (s : string) :
  many1_then p (λ s, match s with
                     | String c s' => is_char TAB c && k s'
                     | "" => false
                     end) s = true →
  2 ≤ length (str_split_on TAB s).
Proof.
  induction s as [|c s IH]; [done|]. cbn [many1_then].
  intros [_ [H|H]%orb_prop]%andb_prop;
    etrans; [|apply str_split_on_cons_length| |apply str_split_on_cons_length].
  - by apply IH.
  - destruct s as [|d s]; [done|]. apply andb_prop in H as [Hd _].
    cbn [str_split_on]. rewrite Hd. pose proof (str_split_on_length TAB s).
    cbn [length]. lia.
Qed.

Lemma scene_pattern_split (line : string) :
  re_match scene_pattern line = true → 2 ≤ length (str_split_on TAB line).
Proof.
  unfold re_match, scene_pattern. cbn [re_match_from andb].
  apply many1_then_tab.
Qed.

(** The index 1 is in range whenever the pattern matches. *)
Lemma _get_scene_name_returns (line : string) : returns (_get_scene_name line).
Proof.
  unfold _get_scene_name.
  destruct (re_match scene_pattern line) eqn:Hm; [|by eexists].
  apply scene_pattern_split in Hm.
  destruct (str_split_on TAB line !! 1) as [f|] eqn:Hf; [by eexists|].
  apply lookup_ge_None in Hf. lia.
Qed.

Lemma _add_entry_spec (st : ParserState.t) : _add_entry st = Ok (flush st).
Proof.
  unfold _add_entry, flush, stats_after_entry, vocabulary_after_entry, entry_of.
  rewrite !_reset_buffer_spec, !bind_Ok. done.
Qed.

Lemma flush_pending (st : ParserState.t) : pending (flush st) = false.
Proof. done. Qed.

Lemma _add_scene_spec (st : ParserState.t) : _add_scene st = Ok (close_scene st).
Proof.
  unfold _add_scene, close_scene.
  destruct (pending st); by rewrite ?_add_entry_spec, bind_Ok.
Qed.

Lemma parse_line_spec (st : ParserState.t) (raw : string) :
  parse_line st raw = Ok (after_line st raw).
Proof.
  unfold parse_line, after_line, classify, heading_name.
  set (line := strip_chars (is_char LF) raw).
  destruct (truthy line); cbn [negb]; [|done].
  destruct (_get_scene_name_returns line) as [o ->]. rewrite bind_Ok.
  destruct o as [[|c new_name]|].
  2:{ by rewrite _add_scene_spec, !bind_Ok. }
  all: case_bool_decide; [by destruct (truthy_opt _); rewrite ?_add_entry_spec, ?bind_Ok|].
  all: destruct (bool_decide (_ ∈ _) && _);
    [by rewrite _concatenate_text_spec, bind_Ok|].
  all: destruct (truthy_opt (character_name st)) eqn:Ha;
    rewrite ?_add_entry_spec, ?bind_Ok, _concatenate_text_spec, bind_Ok; done.
Qed.

Lemma parse_lines_spec (lines : list string) (st : ParserState.t) :
  parse_lines st lines = Ok (foldl after_line st lines).
Proof.
  revert st. induction lines as [|raw lines IH]; intros st; [done|].
  cbn [parse_lines foldl]. by rewrite parse_line_spec, bind_Ok.
Qed.

Lemma finish_spec (st : ParserState.t) : finish st = Ok (document st).
Proof.
  unfold finish, document.
  destruct (pending st); by rewrite ?_add_scene_spec, bind_Ok.
Qed.

Lemma _parse_text_script_spec (lines : list string) :
  _parse_text_script lines = Ok (document (foldl after_line initial_state lines)).
Proof.
  unfold _parse_text_script. by rewrite parse_lines_spec, bind_Ok, finish_spec.
Qed.

(** ** The state between two lines *)

Lemma spaced_chop_hyphen (v : string) : spaced v → chop_hyphen v = v.
Proof. intros [->|[body ->]]; [done|]. by rewrite chop_hyphen_snoc. Qed.

Lemma appended_at_end (b : StringIO) (line : string) : at_end (appended b line).
Proof. done. Qed.

Lemma appended_spaced (b : StringIO) (line : string) :
  spaced (getvalue (appended b line)).
Proof. right. unfold appended. cbn [getvalue]. rewrite <-str_app_assoc. eauto. Qed.

Lemma appended_nonempty (b : StringIO) (line : string) :
  truthy (getvalue (appended b line)) = true.
Proof.
  unfold appended. cbn [getvalue].
  destruct (chop_hyphen (getvalue b)) as [|c v]; [|done].
  rewrite str_app_nil_l. by destruct (str_lower (str_strip line)).
Qed.

Lemma appended_value (b : StringIO) (line : string) :
  spaced (getvalue b) →
  getvalue (appended b line)
  = getvalue b +:+ (str_lower (str_strip line) +:+ " ").
Proof. intros Hb. unfold appended. cbn [getvalue]. by rewrite spaced_chop_hyphen. Qed.

Lemma classify_continuation (active : option string) (raw : string) :
  classify active raw = Continuation → active ≠ None.
Proof.
  unfold classify. destruct (negb _); [done|]. destruct (heading_name _); [done|].
  case_bool_decide; [done|]. case_bool_decide; cbn [andb]; [|done].
  by case_bool_decide.
Qed.

Lemma wf_initial_state : wf_state initial_state.
Proof. by split; try left. Qed.

Lemma wf_flush (st : ParserState.t) : wf_state (flush st).
Proof. by split; try left. Qed.

Lemma wf_close_scene (st : ParserState.t) : wf_state st → wf_state (close_scene st).
Proof.
  intros Hwf. unfold close_scene.
  destruct (pending st); [pose proof (wf_flush st) as H|pose proof Hwf as H];
    destruct H; by split.
Qed.

Lemma wf_after_line (st : ParserState.t) (raw : string) :
  wf_state st → wf_state (after_line st raw).
Proof.
  intros Hwf. unfold after_line.
  destruct (classify (character_name st) raw) eqn:Hk; [done|by split; try left|..].
  - destruct (truthy_opt (character_name st));
      [pose proof (wf_flush st) as H|pose proof Hwf as H]; destruct H; by split.
  - apply classify_continuation in Hk. destruct Hwf.
    split; cbn [scene_text dialogue_text character_name];
      auto using appended_spaced, appended_at_end.
  - destruct (truthy_opt (character_name st));
      [pose proof (wf_flush st) as H|pose proof Hwf as H]; destruct H;
      split; cbn [scene_text dialogue_text character_name];
      auto using appended_spaced, appended_at_end.
Qed.

Lemma wf_foldl (lines : list string) (st : ParserState.t) :
  wf_state st → wf_state (foldl after_line st lines).
Proof.
  revert st. induction lines as [|raw lines IH]; intros st Hwf; [done|].
  cbn [foldl]. by apply IH, wf_after_line.
Qed.

(** Every state the pass goes through is well formed. *)
Lemma wf_parse_lines (lines : list string) (st : ParserState.t) :
  parse_lines initial_state lines = Ok st → wf_state st.
Proof.
  rewrite parse_lines_spec. intros [= <-]. apply wf_foldl, wf_initial_state.
Qed.

(** On a well-formed state the test of [_add_scene] reads the contents. *)
Lemma pending_wf (st : ParserState.t) :
  wf_state st →
  pending st = truthy (getvalue (scene_text st)) || truthy_opt (character_name st).
Proof.
  intros [He _ _ _ _]. unfold pending, tell. rewrite He. f_equal.
  destruct (getvalue (scene_text st)); [done|]. cbn [String.length].
  rewrite Z.gtb_ltb. by destruct (Z.ltb_spec 0 (Z.of_nat (S (String.length s)))); [|lia].
Qed.

(** ** Line kinds *)

Lemma is_heading_spec (active : option string) (raw : string) :
  is_heading raw
  = match classify active raw with Heading _ => true | _ => false end.
Proof.
  unfold is_heading, classify. destruct (negb _); [done|].
  destruct (heading_name _); [done|].
  case_bool_decide; [done|]. cbn [andb bool_decide].
  by destruct (bool_decide (_ ∈ _) && _), (bool_decide (_ ∈ _) && _).
Qed.

Lemma classify_heading_active (active active' : option string) (raw new_name : string) :
  classify active raw = Heading new_name → classify active' raw = Heading new_name.
Proof.
  unfold classify. destruct (negb _); [done|].
  destruct (heading_name _); [done|].
  case_bool_decide; [done|]. by destruct (_ && _).
Qed.

Lemma classify_description_none (raw : string) :
  classify None raw = Description →
  truthy (strip_chars (is_char LF) raw) = true
  ∧ heading_name (strip_chars (is_char LF) raw) = None
  ∧ _count_leading_tabs (strip_chars (is_char LF) raw) ≠ 6.
Proof.
  unfold classify. destruct (truthy _); [|done]. cbn [negb].
  destruct (heading_name _); [done|]. by case_bool_decide.
Qed.

Lemma tell_appended (b : StringIO) (line : string) :
  (tell (appended b line) >? 0)%Z = true.
Proof.
  pose proof (appended_nonempty b line) as Hne. unfold tell.
  rewrite appended_at_end. destruct (getvalue (appended b line)); [done|].
  cbn [String.length]. rewrite Z.gtb_ltb.
  by destruct (Z.ltb_spec 0 (Z.of_nat (S (String.length s)))); [|lia].
Qed.

(** ** The title scene *)

Lemma scenes_close_scene (st : ParserState.t) :
  ∃ es, scenes (close_scene st) = scenes st ++ [Scene.mk (scene_name st) es].
Proof. unfold close_scene. destruct (pending st); by eexists. Qed.

Lemma title_inv_close_scene (seen : bool) (st : ParserState.t) :
  title_inv seen st → title_scene_first (scenes (close_scene st)).
Proof.
  destruct (scenes_close_scene st) as [es ->].
  intros [(_ & -> & ->)|(es' & rest & ->)]; [by exists es, []|].
  by exists es', (rest ++ [Scene.mk (scene_name st) es]).
Qed.

Lemma title_inv_after_line (seen : bool) (st : ParserState.t) (raw : string) :
  title_inv seen st → title_inv (seen || is_heading raw) (after_line st raw).
Proof.
  intros Hinv. rewrite (is_heading_spec (character_name st)). unfold after_line.
  destruct (classify (character_name st) raw) eqn:Hk; rewrite ?orb_false_r.
  - done.
  - right. by eapply title_inv_close_scene.
  - by destruct (truthy_opt (character_name st)).
  - done.
  - by destruct (truthy_opt (character_name st)).
Qed.

Lemma title_inv_foldl (lines : list string) (seen : bool) (st : ParserState.t) :
  title_inv seen st →
  title_inv (seen || existsb is_heading lines) (foldl after_line st lines).
Proof.
  revert seen st. induction lines as [|raw lines IH]; intros seen st Hinv.
  - by rewrite orb_false_r.
  - cbn [foldl existsb]. rewrite orb_assoc. by apply IH, title_inv_after_line.
Qed.

(** ** The counts set after the loop *)

Lemma length_sorted (xs : list string) : length (sorted xs) = length xs.
Proof. unfold sorted. by rewrite merge_sort_Permutation. Qed.

Lemma elem_of_sorted (x : string) (xs : list string) : x ∈ sorted xs ↔ x ∈ xs.
Proof. unfold sorted. by rewrite merge_sort_Permutation. Qed.

Lemma document_total_scenes (st : ParserState.t) :
  counter_get "total_scenes" (ParsedObject.stats (document st))
  = length (ParsedObject.scenes (document st)).
Proof.
  unfold document, counter_get. cbn [ParsedObject.stats ParsedObject.scenes].
  by rewrite lookup_insert_eq.
Qed.

Lemma document_total_characters (st : ParserState.t) :
  counter_get "total_characters" (ParsedObject.stats (document st))
  = length (ParsedObject.character_vocabulary (document st)).
Proof.
  unfold document, counter_get.
  cbn [ParsedObject.stats ParsedObject.character_vocabulary].
  rewrite lookup_insert_ne by done. rewrite lookup_insert_eq, length_sorted. done.
Qed.

(** ** The vocabulary *)

Lemma vocabulary_covers_flush (st : ParserState.t) :
  vocabulary_covers st → vocabulary_covers (flush st).
Proof.
  unfold vocabulary_covers, flush, vocabulary_after_entry, entry_of.
  cbn [scenes entries character_vocabulary]. intros Hc d.
  rewrite omap_app, app_assoc, elem_of_app. intros [Hin|Hin].
  - specialize (Hc d Hin).
    destruct (character_name st) as [[|c who]|]; [done| |done].
    apply elem_of_union. by left.
  - destruct (character_name st) as [[|c who]|]; cbn in Hin.
    + by apply elem_of_nil in Hin.
    + apply list_elem_of_singleton in Hin as ->.
      apply elem_of_union. right. by apply elem_of_singleton.
    + by apply elem_of_nil in Hin.
Qed.

Lemma dialogues_snoc (scs : list Scene.t) (s : Scene.t) :
  dialogues (scs ++ [s]) = dialogues scs ++ omap Entry.dialogue (Scene.entries s).
Proof.
  unfold dialogues, all_entries. rewrite bind_app, omap_app.
  cbn [mbind list_bind]. by rewrite app_nil_r.
Qed.

Lemma vocabulary_covers_close_scene (st : ParserState.t) :
  vocabulary_covers st → vocabulary_covers (close_scene st).
Proof.
  intros Hc. unfold close_scene.
  assert (vocabulary_covers (if pending st then flush st else st)) as Hc'.
  { destruct (pending st); auto using vocabulary_covers_flush. }
  revert Hc'. generalize (if pending st then flush st else st). clear.
  intros st Hc d. cbn [scenes entries character_vocabulary].
  rewrite dialogues_snoc. cbn [Scene.entries].
  rewrite !elem_of_app. intros Hin. apply Hc. rewrite elem_of_app. tauto.
Qed.

Lemma vocabulary_covers_after_line (st : ParserState.t) (raw : string) :
  vocabulary_covers st → vocabulary_covers (after_line st raw).
Proof.
  intros Hc. unfold after_line.
  destruct (classify (character_name st) raw); [done| | |done|].
  - apply vocabulary_covers_close_scene in Hc. intros d Hin. apply Hc.
    cbn [scenes entries omap] in Hin. rewrite app_nil_r in Hin.
    apply elem_of_app. by left.
  - destruct (truthy_opt (character_name st));
      [apply vocabulary_covers_flush in Hc|]; exact Hc.
  - destruct (truthy_opt (character_name st));
      [apply vocabulary_covers_flush in Hc|]; exact Hc.
Qed.

Lemma vocabulary_covers_foldl (lines : list string) (st : ParserState.t) :
  vocabulary_covers st → vocabulary_covers (foldl after_line st lines).
Proof.
  revert st. induction lines as [|raw lines IH]; intros st Hc; [done|].
  cbn [foldl]. by apply IH, vocabulary_covers_after_line.
Qed.

(** ** Single steps *)

Lemma after_line_heading (st : ParserState.t) (raw new_name : string) :
  classify None raw = Heading new_name →
  after_line st raw
  = mk StringIO_new StringIO_new new_name None
       (stats (close_scene st)) (character_vocabulary (close_scene st))
       (scenes (close_scene st)) [].
Proof.
  intros Hk. unfold after_line.
  by rewrite (classify_heading_active None (character_name st) raw new_name Hk).
Qed.

Lemma after_line_description (st : ParserState.t) (raw : string) :
  classify (character_name st) raw = Description →
  after_line st raw
  = let st' := if truthy_opt (character_name st) then flush st else st in
    mk (appended (scene_text st') (strip_chars (is_char LF) raw))
       (dialogue_text st') (scene_name st') (character_name st')
       (stats st') (character_vocabulary st') (scenes st') (entries st').
Proof. intros Hk. unfold after_line. by rewrite Hk. Qed.

Lemma close_scene_pending (st : ParserState.t) :
  pending st = true →
  close_scene st
  = mk StringIO_new StringIO_new (scene_name st) None
       (stats_after_entry st) (vocabulary_after_entry st)
       (scenes st ++ [Scene.mk (scene_name st) (entries st ++ [entry_of st])])
       (entries st ++ [entry_of st]).
Proof. intros Hp. unfold close_scene. by rewrite Hp. Qed.

Lemma close_scene_idle (st : ParserState.t) :
  pending st = false →
  close_scene st
  = mk (scene_text st) (dialogue_text st) (scene_name st) (character_name st)
       (stats st) (character_vocabulary st)
       (scenes st ++ [Scene.mk (scene_name st) (entries st)]) (entries st).
Proof. intros Hp. unfold close_scene. by rewrite Hp. Qed.

Lemma pending_appended (b d : StringIO) (line nm : string) (who : option string)
    (stt : Counter) (voc : gset string) (scs : list Scene.t) (es : list Entry.t) :
  pending (mk (appended b line) d nm who stt voc scs es) = true.
Proof. unfold pending. cbn [scene_text]. by rewrite tell_appended. Qed.

(** ** Lines of white space *)

Lemma lstrip_weaken (p q : ascii → bool) (s : string) :
  (∀ c, p c = true → q c = true) → lstrip p s = "" → lstrip q s = "".
Proof.
  intros Hpq. induction s as [|c s IH]; [done|]. cbn [lstrip].
  destruct (p c) eqn:Hp; [|done]. rewrite (Hpq c Hp). exact IH.
Qed.

Lemma space_or_tab_isspace (c : ascii) :
  is_char " "%char c || is_char TAB c = true → isspace c = true.
Proof.
  unfold is_char. intros [H|H]%orb_prop; apply bool_decide_eq_true in H; by subst.
Qed.

Lemma space_or_tab_not_digit (c : ascii) :
  is_char " "%char c || is_char TAB c = true → isdigit c = false.
Proof.
  unfold is_char. intros [H|H]%orb_prop; apply bool_decide_eq_true in H; by subst.
Qed.

Lemma blank_chars_strip (line : string) :
  blank_chars line = true → str_strip line = "".
Proof.
  unfold blank_chars, str_strip, strip_chars. intros H%bool_decide_eq_true.
  by rewrite (lstrip_weaken _ isspace line space_or_tab_isspace H).
Qed.

Lemma blank_chars_no_heading (line : string) :
  blank_chars line = true → heading_name line = None.
Proof.
  unfold blank_chars. intros H%bool_decide_eq_true.
  destruct line as [|c s]; [done|]. cbn [lstrip] in H.
  destruct (is_char " "%char c || is_char TAB c) eqn:Hc; [|done].
  unfold heading_name, _get_scene_name, re_match, scene_pattern.
  cbn [re_match_from many1_then andb]. by rewrite (space_or_tab_not_digit c Hc).
Qed.

(** ** Well-formed headings *)

Lemma many1_then_all (p : ascii → bool) (k : string → bool) (s t : string) :
  truthy s = true → str_all p s = true → k t = true →
  many1_then p k (s +:+ t) = true.
Proof.
  intros Hs Hp Hk. induction s as [|c s IH]; [done|].
  rewrite str_app_cons. cbn [many1_then]. cbn [str_all] in Hp.
  apply andb_prop in Hp as [-> Hp]. cbn [andb].
  destruct s as [|d s]; [by rewrite str_app_nil_l, Hk, orb_true_r|].
  by rewrite IH.
Qed.

Lemma digit_not_tab (c : ascii) : isdigit c = true → is_char TAB c = false.
Proof.
  intros Hd. unfold is_char. case_bool_decide as Hc; [|done]. by subst.
Qed.

Lemma str_split_on_digits (ds rest : string) :
  str_all isdigit ds = true →
  str_split_on TAB (ds +:+ String TAB rest) = ds :: str_split_on TAB rest.
Proof.
  intros Hd. induction ds as [|c ds IH]; [done|].
  cbn [str_all] in Hd. apply andb_prop in Hd as [Hc Hd].
  rewrite str_app_cons. cbn [str_split_on].
  by rewrite (digit_not_tab c Hc), IH.
Qed.

Lemma str_split_on_no_sep (sep : ascii) (s : string) :
  str_all (λ c, negb (is_char sep c)) s = true → str_split_on sep s = [s].
Proof.
  induction s as [|c s IH]; [done|]. cbn [str_all str_split_on].
  intros [Hc Hs]%andb_prop. apply negb_true_iff in Hc. by rewrite Hc, IH.
Qed.

Lemma scene_pattern_matches (ds rest : string) :
  truthy ds = true → str_all isdigit ds = true →
  truthy rest = true → str_all re_dot rest = true →
  re_match scene_pattern (ds +:+ String TAB rest) = true.
Proof.
  intros Hds Hd Hrest Hr. unfold re_match, scene_pattern.
  cbn [re_match_from andb]. apply many1_then_all; [done..|].
  change (is_char TAB TAB) with true. cbn [andb].
  rewrite <-(str_app_nil_r rest). by apply many1_then_all.
Qed.

(** On a line made of digits, a tab and a remainder without newline,
    [_get_scene_name] returns the first tab-separated field of the
    remainder. *)
Lemma _get_scene_name_first_field (ds rest : string) :
  truthy ds = true → str_all isdigit ds = true →
  truthy rest = true → str_all re_dot rest = true →
  _get_scene_name (ds +:+ String TAB rest) = Ok (str_split_on TAB rest !! 0).
Proof.
  intros Hds Hd Hrest Hr. unfold _get_scene_name.
  rewrite scene_pattern_matches, str_split_on_digits by done.
  cbn [lookup list_lookup]. pose proof (str_split_on_length TAB rest).
  by destruct (str_split_on TAB rest); [cbn in *; lia|].
Qed.

(** When the remainder has no further tab, the whole remainder is the
    scene name. *)
Lemma _get_scene_name_no_further_tab (ds rest : string) :
  truthy ds = true → str_all isdigit ds = true →
  truthy rest = true → str_all re_dot rest = true →
  str_all (λ c, negb (is_char TAB c)) rest = true →
  _get_scene_name (ds +:+ String TAB rest) = Ok (Some rest).
Proof.
  intros Hds Hd Hrest Hr Ht.
  by rewrite _get_scene_name_first_field, str_split_on_no_sep.
Qed.

(** ** Counters *)

#[local] Arguments counter_get : simpl never.
#[local] Arguments counter_add : simpl never.
#[local] Arguments str_split : simpl never.

Lemma counter_get_add (k : string) (n : nat) (c : Counter) :
  counter_get k (counter_add k n c) = counter_get k c + n.
Proof. unfold counter_add, counter_get at 1. by rewrite lookup_insert_eq. Qed.

Lemma counter_get_add_ne (k k' : string) (n : nat) (c : Counter) :
  k ≠ k' → counter_get k (counter_add k' n c) = counter_get k c.
Proof.
  intros Hne. unfold counter_add, counter_get at 1.
  by rewrite lookup_insert_ne.
Qed.

(** ** Accounting *)

Lemma document_words_snoc (scs : list Scene.t) (s : Scene.t) :
  document_words (scs ++ [s])
  = document_words scs + sum_list_with entry_words (Scene.entries s).
Proof.
  unfold document_words, all_entries. rewrite bind_app, sum_list_with_app.
  cbn [mbind list_bind]. by rewrite app_nil_r.
Qed.

Lemma accounted_initial_state : accounted initial_state.
Proof.
  split; [done|done|]. intros who Hin. by apply not_elem_of_empty in Hin.
Qed.

(** An entry accounts for the words counted for it when its dialogue
    text is kept: the name is non-empty, or there is no dialogue text. *)
Lemma entry_words_entry_of (st : ParserState.t) :
  (truthy_opt (character_name st) = false → getvalue (dialogue_text st) = "") →
  entry_words (entry_of st)
  = length (str_split (getvalue (scene_text st)))
    + length (str_split (getvalue (dialogue_text st))).
Proof.
  intros Hd. unfold entry_words, entry_of. cbn [Entry.description Entry.dialogue].
  destruct (character_name st) as [[|c who]|]; cbn [from_option Dialogue.text];
    [by rewrite Hd|done|by rewrite Hd].
Qed.

Lemma accounted_flush (st : ParserState.t) :
  (truthy_opt (character_name st) = false → getvalue (dialogue_text st) = "") →
  accounted st → accounted (flush st).
Proof.
  intros Hd [Hdl Hw Hv]. unfold dialogues_so_far, words_so_far in *.
  split; unfold dialogues_so_far, words_so_far, flush, stats_after_entry,
    vocabulary_after_entry; cbn [stats scenes entries character_vocabulary].
  - rewrite counter_get_add_ne by done. rewrite omap_app, !length_app in *.
    unfold entry_of. destruct (character_name st) as [[|c who]|]; cbn;
      rewrite ?counter_get_add_ne, ?counter_get_add, ?Hdl by done; lia.
  - rewrite counter_get_add, sum_list_with_app. cbn [sum_list_with].
    rewrite (entry_words_entry_of st Hd).
    assert (counter_get "total_words"
              (if truthy_opt (character_name st)
               then counter_add "total_words_in_dialogues"
                      (length (str_split (getvalue (dialogue_text st))))
                      (counter_add "total_dialogues" 1 (stats st))
               else stats st)
            = counter_get "total_words" (stats st)) as ->.
    { destruct (truthy_opt _); [|done]. by rewrite !counter_get_add_ne. }
    rewrite Hw. lia.
  - intros who Hin. rewrite omap_app, app_assoc.
    setoid_rewrite elem_of_app. unfold entry_of.
    destruct (character_name st) as [[|c name]|]; cbn [omap Entry.dialogue].
    + destruct (Hv who Hin) as (d & Hdin & Hdc). eauto.
    + apply elem_of_union in Hin as [Hin|Hin].
      * destruct (Hv who Hin) as (d & Hdin & Hdc). eauto.
      * apply elem_of_singleton in Hin as ->. eexists. split; [right; by left|done].
    + destruct (Hv who Hin) as (d & Hdin & Hdc). eauto.
Qed.

(** Accounting looks at the counters, the vocabulary, the scenes and
    the entries only, and moving the entries into a closed scene keeps
    it. *)
Lemma accounted_fields (st st' : ParserState.t) :
  stats st' = stats st → character_vocabulary st' = character_vocabulary st →
  scenes st' = scenes st → entries st' = entries st →
  accounted st → accounted st'.
Proof.
  intros Hs Hv Hsc He [Hdl Hw Hvoc]. unfold dialogues_so_far, words_so_far in *.
  split; unfold dialogues_so_far, words_so_far; by rewrite ?Hs, ?Hv, ?Hsc, ?He.
Qed.

Lemma accounted_scene_closed (st st' : ParserState.t) (nm : string) :
  stats st' = stats st → character_vocabulary st' = character_vocabulary st →
  scenes st' = scenes st ++ [Scene.mk nm (entries st)] → entries st' = [] →
  accounted st → accounted st'.
Proof.
  intros Hs Hv Hsc He [Hdl Hw Hvoc]. unfold dialogues_so_far, words_so_far in *.
  split; unfold dialogues_so_far, words_so_far;
    rewrite ?Hs, ?Hv, Hsc, He, ?dialogues_snoc, ?document_words_snoc;
    cbn [Scene.entries omap sum_list_with]; rewrite ?app_nil_r, ?Nat.add_0_r;
    done.
Qed.

(** ** The pass without empty cue names *)

Lemma classify_cue_active (active : option string) (raw : string) :
  classify active raw = Cue → classify None raw = Cue.
Proof.
  unfold classify. destruct (negb _); [done|]. destruct (heading_name _); [done|].
  case_bool_decide; [done|]. by destruct (_ && _).
Qed.

Lemma tidy_initial_state : tidy initial_state.
Proof.
  split; [apply wf_initial_state|done|done|apply accounted_initial_state].
Qed.

Lemma tidy_dialogue_kept (st : ParserState.t) :
  tidy st →
  truthy_opt (character_name st) = false → getvalue (dialogue_text st) = "".
Proof.
  intros [Hwf Hn _ _] Hf. specialize (Hn Hf).
  destruct (decide (getvalue (dialogue_text st) = "")) as [|Hne]; [done|].
  by destruct (wf_dialogue_character st Hwf Hne).
Qed.

Lemma accounted_flush_if (st : ParserState.t) (b : bool) :
  tidy st → accounted (if b then flush st else st).
Proof.
  intros Ht. destruct b; [|apply Ht].
  apply accounted_flush; [by apply tidy_dialogue_kept|apply Ht].
Qed.

Lemma tidy_after_line (st : ParserState.t) (raw : string) :
  empty_cue raw = false → tidy st → tidy (after_line st raw).
Proof.
  intros Hcue Ht. pose proof (wf_after_line st raw (tidy_wf st Ht)) as Hwf.
  revert Hwf. unfold after_line.
  destruct (classify (character_name st) raw) eqn:Hk; intros Hwf; [done|..].
  - split; [done|done|done|].
    eapply (accounted_scene_closed (if pending st then flush st else st));
      [..|by apply accounted_flush_if]; unfold close_scene; by destruct (pending st).
  - apply classify_cue_active in Hk. unfold empty_cue in Hcue. rewrite Hk in Hcue.
    apply negb_false_iff in Hcue.
    split; [done| | |].
    + cbn [character_name truthy_opt]. by rewrite Hcue.
    + intros _. unfold pending. cbn [character_name truthy_opt].
      by rewrite Hcue, orb_true_r.
    + eapply accounted_fields; [..|by apply (accounted_flush_if st (truthy_opt (character_name st)))];
        done.
  - destruct Ht as [_ Hn He Ha]. split; [done|done| |].
    + intros Hne. specialize (He Hne). unfold pending in *.
      cbn [scene_text character_name]. exact He.
    + by eapply accounted_fields; [..|exact Ha].
  - split; [done| | |].
    + cbn [character_name]. destruct (truthy_opt (character_name st)) eqn:Hc; [done|].
      intros _. by apply Ht.
    + intros _. apply pending_appended.
    + eapply accounted_fields;
        [..|by apply (accounted_flush_if st (truthy_opt (character_name st)))];
        done.
Qed.

Lemma tidy_foldl (lines : list string) (st : ParserState.t) :
  existsb empty_cue lines = false → tidy st → tidy (foldl after_line st lines).
Proof.
  revert st. induction lines as [|raw lines IH]; intros st Hc Ht; [done|].
  cbn [existsb] in Hc. apply orb_false_elim in Hc as [Hraw Hc].
  cbn [foldl]. by apply IH, tidy_after_line.
Qed.

(** What the document holds is what was built, when the pass ends in a
    tidy state. *)
Lemma document_dialogues_tidy (st : ParserState.t) :
  tidy st →
  ∃ st', accounted st'
         ∧ ParsedObject.scenes (document st) = scenes st'
         ∧ ParsedObject.stats (document st)
           = <["total_scenes" := length (scenes st')]>
               (<["total_characters" := size (character_vocabulary st')]> (stats st'))
         ∧ ParsedObject.character_vocabulary (document st)
           = sorted (elements (character_vocabulary st'))
         ∧ entries st' = [].
Proof.
  intros Ht. unfold document. destruct (pending st) eqn:Hp.
  - exists (mk StringIO_new StringIO_new (scene_name st) None
              (stats (close_scene st)) (character_vocabulary (close_scene st))
              (scenes (close_scene st)) []).
    split; [|done].
    eapply (accounted_scene_closed (flush st));
      [..|by apply (accounted_flush_if st true)]; unfold close_scene; by rewrite Hp.
  - destruct (decide (entries st = [])) as [He|He].
    + exists st. split; [apply Ht|done].
    + by rewrite (tidy_entries st Ht He) in Hp.
Qed.

(** ** Inputs with content *)

Lemma after_line_blank (st : ParserState.t) (raw : string) :
  is_nonblank raw = false → after_line st raw = st.
Proof.
  unfold is_nonblank, after_line, classify. by intros ->.
Qed.

Lemma classify_blank (active : option string) (raw : string) :
  classify active raw = Blank → is_nonblank raw = false.
Proof.
  unfold is_nonblank, classify. destruct (truthy _); [|done]. cbn [negb].
  destruct (heading_name _); [done|]. case_bool_decide; [done|].
  by destruct (_ && _).
Qed.

Lemma started_after_line (st : ParserState.t) (raw : string) :
  empty_cue raw = false → tidy st →
  is_nonblank raw = true ∨ started st → started (after_line st raw).
Proof.
  intros Hcue Ht Hs. unfold after_line.
  destruct (classify (character_name st) raw) eqn:Hk.
  - apply classify_blank in Hk. destruct Hs as [Hs|Hs]; [congruence|done].
  - left. cbn [scenes]. destruct (scenes_close_scene st) as [es ->].
    by destruct (scenes st).
  - right. apply classify_cue_active in Hk. unfold empty_cue in Hcue.
    rewrite Hk in Hcue. apply negb_false_iff in Hcue.
    unfold pending. cbn [character_name truthy_opt]. by rewrite Hcue, orb_true_r.
  - right. apply classify_continuation in Hk. unfold pending.
    cbn [scene_text character_name].
    destruct (truthy_opt (character_name st)) eqn:Hc; [by rewrite orb_true_r|].
    by destruct (Hk (tidy_named st Ht Hc)).
  - right. apply pending_appended.
Qed.

Lemma started_foldl (lines : list string) (st : ParserState.t) :
  existsb empty_cue lines = false → tidy st →
  existsb is_nonblank lines = true ∨ started st →
  started (foldl after_line st lines).
Proof.
  revert st. induction lines as [|raw lines IH]; intros st Hc Ht Hs.
  - by destruct Hs.
  - cbn [existsb] in Hc, Hs. apply orb_false_elim in Hc as [Hraw Hc].
    cbn [foldl]. apply IH; [done|by apply tidy_after_line|].
    destruct Hs as [[Hs|Hs]%orb_prop|Hs]; [right|by left|right];
      apply started_after_line; auto.
Qed.

Lemma foldl_blank (lines : list string) (st : ParserState.t) :
  existsb is_nonblank lines = false → foldl after_line st lines = st.
Proof.
  induction lines as [|raw lines IH]; [done|]. cbn [existsb foldl].
  intros [Hraw Hl]%orb_false_elim. by rewrite after_line_blank, IH.
Qed.

(** ** Text accumulation *)

(** Text written by [_concatenate_text] ends with the separating space,
    so the next call finds no hyphen to remove: two calls in a row
    concatenate the two normalised lines, each followed by a space. *)
Lemma _concatenate_text_twice (b : StringIO) (line1 line2 : string) :
  (b1 ← _concatenate_text b line1; _concatenate_text b1 line2)
  = Ok (appended (appended b line1) line2)
  ∧ getvalue (appended (appended b line1) line2)
    = getvalue (appended b line1) +:+ (str_lower (str_strip line2) +:+ " ").
Proof.
  split.
  - rewrite _concatenate_text_spec, bind_Ok. apply _concatenate_text_spec.
  - apply appended_value, appended_spaced.
Qed.

(** C1 (the code departs from the claim).  Appending the line "exam-"
    and then the line "ple" to an empty buffer leaves "exam- ple " in
    the buffer, not "example ": the first call ends the buffer with a
    space, so the second call sees no trailing hyphen. *)
Theorem hyphen_before_line_break_is_kept :
  ∃ b, (b1 ← _concatenate_text StringIO_new "exam-"; _concatenate_text b1 "ple") = Ok b
       ∧ getvalue b = "exam- ple "
       ∧ getvalue b ≠ "example ".
Proof. eexists. split; [vm_compute; reflexivity|]. by split. Qed.

(** ** Scene headings *)

(** C4 (the code departs from the claim).  For the line
    "12<TAB>INT.<TAB>ROOM" the scene name is "INT.", the text between
    the first and the second tab, not the remainder "INT.<TAB>ROOM"; the
    line "12<TAB><TAB>ROOM" matches the pattern but yields the empty
    name, which is falsy, so the line is taken as scene description. *)
Theorem scene_name_is_cut_at_second_tab :
  _get_scene_name ("12" +:+ tabs 1 "INT." +:+ tabs 1 "ROOM") = Ok (Some "INT.")
  ∧ classify None ("12" +:+ tabs 1 "INT." +:+ tabs 1 "ROOM") = Heading "INT."
  ∧ re_match scene_pattern ("12" +:+ tabs 2 "ROOM") = true
  ∧ _get_scene_name ("12" +:+ tabs 2 "ROOM") = Ok (Some "")
  ∧ classify None ("12" +:+ tabs 2 "ROOM") = Description.
Proof. repeat split; vm_compute; reflexivity. Qed.

(** ** No exception *)

(** C8.  No operation of the parser raises: the index 1 of the tab split
    is in range whenever the pattern matches, the backward seeks of
    [_concatenate_text] never go below 0, the loop body returns a state
    for every state and line, a line is skipped exactly when it is empty
    after the newlines are stripped (any other line falls in one of the
    four branches), and [_parse_text_script] returns a document for
    every sequence of lines. *)
Theorem parser_never_raises :
  (∀ line, returns (_get_scene_name line))
  ∧ (∀ b new_line, returns (_concatenate_text b new_line))
  ∧ (∀ b, returns (_reset_buffer b))
  ∧ (∀ st, returns (_add_entry st) ∧ returns (_add_scene st))
  ∧ (∀ st raw, returns (parse_line st raw))
  ∧ (∀ active raw,
       kind_is_blank (classify active raw)
       = negb (truthy (strip_chars (is_char LF) raw)))
  ∧ (∀ lines, returns (_parse_text_script lines)).
Proof.
  split; [exact _get_scene_name_returns|].
  split; [intros; eexists; apply _concatenate_text_spec|].
  split; [intros; eexists; apply _reset_buffer_spec|].
  split; [intros; split; eexists; [apply _add_entry_spec|apply _add_scene_spec]|].
  split; [intros; eexists; apply parse_line_spec|].
  split; [|intros; eexists; apply _parse_text_script_spec].
  intros active raw. unfold classify.
  destruct (truthy _); cbn [negb]; [|done].
  destruct (heading_name _); [done|].
  case_bool_decide; [done|]. by destruct (_ && _).
Qed.

(** ** A cue line without a name

    A line of six tabs and nothing but white space after them sets the
    character name to the empty string, which is not [None] but is
    falsy.  The four evaluations below come from this one case. *)

(** C9 (the code departs from the claim).  After the lines
    "<6 TABs>" and "<4 TABs>hello" the dialogue buffer holds "hello "
    under the character name "", the test for pending content is false,
    and the document has no scene: the dialogue text is lost. *)
Theorem dialogue_under_empty_name_is_lost :
  ∃ st doc,
    parse_lines initial_state [tabs 6 ""; tabs 4 "hello"] = Ok st
    ∧ getvalue (dialogue_text st) = "hello "
    ∧ character_name st = Some ""
    ∧ pending st = false
    ∧ _parse_text_script [tabs 6 ""; tabs 4 "hello"] = Ok doc
    ∧ ParsedObject.scenes doc = [].
Proof.
  do 2 eexists. split; [vm_compute; reflexivity|].
  repeat split; vm_compute; reflexivity.
Qed.

(** C5 (the code departs from the claim).  For the lines
    "<6 TABs>BOB", "<4 TABs>hi there", "<6 TABs>" the count
    [total_dialogues] is 1 while the document has no entry with a
    dialogue: the entry of BOB was built but its scene was never added. *)
Theorem total_dialogues_counts_dropped_entry :
  ∃ doc,
    _parse_text_script [tabs 6 "BOB"; tabs 4 "hi there"; tabs 6 ""] = Ok doc
    ∧ counter_get "total_dialogues" (ParsedObject.stats doc) = 1
    ∧ length (dialogues (ParsedObject.scenes doc)) = 0.
Proof. eexists. split; [vm_compute; reflexivity|]. by vm_compute. Qed.

(** C6 (the code departs from the claim).  For the same lines the
    vocabulary is ["BOB"] while no dialogue is reachable through the
    scenes of the document. *)
Theorem vocabulary_keeps_dropped_character :
  ∃ doc,
    _parse_text_script [tabs 6 "BOB"; tabs 4 "hi there"; tabs 6 ""] = Ok doc
    ∧ ParsedObject.character_vocabulary doc = ["BOB"]
    ∧ dialogues (ParsedObject.scenes doc) = [].
Proof. eexists. split; [vm_compute; reflexivity|]. by vm_compute. Qed.

(** C7 (the code departs from the claim).  For the lines "<6 TABs>",
    "<4 TABs>hello", "desc" the count [total_words] is 2 while the
    strings of the document hold one word: the entry has the
    description "desc " and no dialogue, but the word of the dialogue
    buffer was counted. *)
Theorem total_words_counts_unattached_dialogue :
  ∃ doc,
    _parse_text_script [tabs 6 ""; tabs 4 "hello"; "desc"] = Ok doc
    ∧ ParsedObject.scenes doc
      = [Scene.mk "SCRIPT TITLE" [Entry.mk "desc " None]]
    ∧ counter_get "total_words" (ParsedObject.stats doc) = 2
    ∧ document_words (ParsedObject.scenes doc) = 1.
Proof. eexists. split; [vm_compute; reflexivity|]. by vm_compute. Qed.

(** ** The title scene *)

(** C2 (the claim as stated fails).  The empty sequence of lines gives a
    document without scenes, so no title scene is present. *)
Lemma empty_input_has_no_title_scene :
  ¬ ∃ doc, _parse_text_script [] = Ok doc
           ∧ title_scene_first (ParsedObject.scenes doc).
Proof. intros (doc & [= <-] & es & rest & Hs). discriminate Hs. Qed.

(** Whatever the lines, the scenes of the document are none or start
    with the scene named "SCRIPT TITLE"; they do start with it when
    some line is a scene heading, or when the pass ends with text in the
    description buffer or with a non-empty character name. *)
Lemma scenes_empty_or_title_first (lines : list string) :
  ∃ st doc,
    parse_lines initial_state lines = Ok st
    ∧ _parse_text_script lines = Ok doc
    ∧ (ParsedObject.scenes doc = []
       ∨ title_scene_first (ParsedObject.scenes doc))
    ∧ (existsb is_heading lines || pending st = true →
       title_scene_first (ParsedObject.scenes doc)).
Proof.
  exists (foldl after_line initial_state lines), (document (foldl after_line initial_state lines)).
  split; [apply parse_lines_spec|]. split; [apply _parse_text_script_spec|].
  pose proof (title_inv_foldl lines false initial_state) as Hinv.
  rewrite orb_false_l in Hinv. specialize (Hinv ltac:(by left)).
  set (st := foldl after_line initial_state lines) in *.
  unfold document. destruct (pending st) eqn:Hp; cbn [ParsedObject.scenes].
  - pose proof (title_inv_close_scene _ _ Hinv). auto.
  - rewrite orb_false_r. destruct Hinv as [(-> & -> & _)|Ht]; [|by auto].
    split; [by left|done].
Qed.

(** When every line is empty after newline stripping, the document has
    no scene. *)
Lemma blank_input_has_no_scene (lines : list string) :
  existsb is_nonblank lines = false →
  ∃ doc, _parse_text_script lines = Ok doc ∧ ParsedObject.scenes doc = [].
Proof.
  intros Hb. eexists. split; [apply _parse_text_script_spec|].
  by rewrite foldl_blank.
Qed.

(** C2 (amended).  For every sequence of lines of which one at least is
    not empty after newline stripping, and none is a character cue with
    an empty name, the parser returns a document whose scenes list is
    not empty and starts with the scene named "SCRIPT TITLE". *)
Theorem title_scene_heads_the_scenes (lines : list string) :
  existsb is_nonblank lines = true →
  existsb empty_cue lines = false →
  ∃ doc, _parse_text_script lines = Ok doc
         ∧ title_scene_first (ParsedObject.scenes doc).
Proof.
  intros Hnb Hcue.
  destruct (scenes_empty_or_title_first lines) as (st & doc & Hst & Hdoc & Hor & Hp).
  exists doc. split; [done|].
  rewrite parse_lines_spec in Hst. injection Hst as <-.
  pose proof (started_foldl lines initial_state Hcue tidy_initial_state
                ltac:(by left)) as [Hs|Hs].
  - destruct Hor as [Hnil|Ht]; [|done].
    rewrite _parse_text_script_spec in Hdoc. injection Hdoc as <-.
    unfold document in *. destruct (pending _); cbn [ParsedObject.scenes] in *;
      [|done].
    destruct (scenes_close_scene (foldl after_line initial_state lines)) as [es Hes].
    rewrite Hes in Hnil. by apply app_eq_nil in Hnil as [_ [=]].
  - apply Hp. by rewrite Hs, orb_true_r.
Qed.

Lemma title_scene_heads_the_scenes_witness :
  ∃ doc, _parse_text_script [tabs 6 "BOB"; tabs 4 "hi there"] = Ok doc
         ∧ title_scene_first (ParsedObject.scenes doc).
Proof.
  apply (title_scene_heads_the_scenes [tabs 6 "BOB"; tabs 4 "hi there"]);
    vm_compute; reflexivity.
Defined.

(** ** Scenes without entries *)

(** C3 (the claim as stated fails).  A title line followed by three bare
    scene headings and nothing else gives three scenes, not four: the
    scene of the last heading is not closed. *)
Lemma title_and_three_headings_give_three_scenes :
  ∃ doc,
    _parse_text_script
      [tabs 1 "Title"; "1" +:+ tabs 1 "SCENE NAME 1";
       "2" +:+ tabs 1 "SCENE NAME 2"; "2" +:+ tabs 1 "SCENE NAME 3"] = Ok doc
    ∧ length (ParsedObject.scenes doc) = 3
    ∧ counter_get "total_scenes" (ParsedObject.stats doc) = 3.
Proof. eexists. split; [vm_compute; reflexivity|]. by vm_compute. Qed.

(** C3 (amended).  Let [title] and [closing] be description lines and
    [h1], [h2], [h3] scene headings.  The lines [title; h1; h2; h3] give
    three scenes, the title scene with one entry and the scenes of [h1]
    and [h2] with none, and [total_characters] 0 and [total_scenes] 3.
    With the description line [closing] after [h3], as in the test of
    the repository, there are four scenes with 1, 0, 0 and 1 entries
    and [total_scenes] is 4. *)
Theorem bare_headings_give_empty_scenes
    (title h1 h2 h3 closing n1 n2 n3 : string) :
  classify None title = Description →
  classify None h1 = Heading n1 →
  classify None h2 = Heading n2 →
  classify None h3 = Heading n3 →
  classify None closing = Description →
  (∃ doc,
     _parse_text_script [title; h1; h2; h3] = Ok doc
     ∧ Scene.name <$> ParsedObject.scenes doc = ["SCRIPT TITLE"; n1; n2]
     ∧ (λ s, length (Scene.entries s)) <$> ParsedObject.scenes doc = [1; 0; 0]
     ∧ counter_get "total_characters" (ParsedObject.stats doc) = 0
     ∧ counter_get "total_scenes" (ParsedObject.stats doc) = 3)
  ∧ (∃ doc,
       _parse_text_script [title; h1; h2; h3; closing] = Ok doc
       ∧ Scene.name <$> ParsedObject.scenes doc = ["SCRIPT TITLE"; n1; n2; n3]
       ∧ (λ s, length (Scene.entries s)) <$> ParsedObject.scenes doc = [1; 0; 0; 1]
       ∧ counter_get "total_characters" (ParsedObject.stats doc) = 0
       ∧ counter_get "total_scenes" (ParsedObject.stats doc) = 4).
Proof.
  intros Ht H1 H2 H3 Hc.
  assert (∃ e, foldl after_line initial_state [title; h1; h2; h3]
               = mk StringIO_new StringIO_new n3 None
                    (stats_after_entry
                       (after_line initial_state title)) ∅
                    [Scene.mk "SCRIPT TITLE" [e]; Scene.mk n1 []; Scene.mk n2 []]
                    []) as [e Hst].
  { cbn [foldl]. rewrite (after_line_description initial_state title Ht).
    cbn [initial_state character_name truthy_opt scene_text dialogue_text
         scene_name stats character_vocabulary scenes entries].
    rewrite (after_line_heading _ h1 n1 H1), close_scene_pending
      by apply pending_appended.
    cbn [scene_name stats character_vocabulary scenes entries app
         vocabulary_after_entry character_name].
    rewrite (after_line_heading _ h2 n2 H2), close_scene_idle by done.
    cbn [scene_name stats character_vocabulary scenes entries app].
    rewrite (after_line_heading _ h3 n3 H3), close_scene_idle by done.
    cbn [scene_name stats character_vocabulary scenes entries app].
    eexists. f_equal. }
  split.
  - eexists. split; [apply _parse_text_script_spec|].
    rewrite document_total_characters, document_total_scenes, Hst.
    by vm_compute.
  - eexists. split; [apply _parse_text_script_spec|].
    rewrite document_total_characters, document_total_scenes.
    change [title; h1; h2; h3; closing] with ([title; h1; h2; h3] ++ [closing]).
    rewrite foldl_app, Hst. cbn [foldl].
    rewrite after_line_description by exact Hc.
    cbn [character_name truthy_opt scene_text dialogue_text
         scene_name stats character_vocabulary scenes entries].
    unfold document. rewrite pending_appended, close_scene_pending
      by apply pending_appended.
    cbn [ParsedObject.scenes ParsedObject.character_vocabulary scenes
         character_vocabulary vocabulary_after_entry character_name
         scene_name entries app fmap list_fmap Scene.name Scene.entries length].
    by vm_compute.
Qed.

Lemma bare_headings_give_empty_scenes_witness :
  ∃ doc,
    _parse_text_script
      [tabs 1 "Title"; "1" +:+ tabs 1 "SCENE NAME 1";
       "2" +:+ tabs 1 "SCENE NAME 2"; "2" +:+ tabs 1 "SCENE NAME 3";
       "THE END"] = Ok doc
    ∧ (λ s, length (Scene.entries s)) <$> ParsedObject.scenes doc = [1; 0; 0; 1]
    ∧ counter_get "total_scenes" (ParsedObject.stats doc) = 4.
Proof.
  destruct (bare_headings_give_empty_scenes
              (tabs 1 "Title") ("1" +:+ tabs 1 "SCENE NAME 1")
              ("2" +:+ tabs 1 "SCENE NAME 2") ("2" +:+ tabs 1 "SCENE NAME 3")
              "THE END" "SCENE NAME 1" "SCENE NAME 2" "SCENE NAME 3")
    as [_ (doc & Hdoc & _ & Hn & _ & Hs)]; try (vm_compute; reflexivity).
  exists doc. by repeat split.
Defined.

(** ** Lines of white space *)

(** C10 (the claim as stated fails).  A line of six tabs is not empty
    after newline stripping and holds white space only, yet it is taken
    as a character cue: nothing is appended to the description buffer
    and no content is pending after it. *)
Lemma six_tabs_line_is_a_cue :
  ∃ st',
    truthy (strip_chars (is_char LF) (tabs 6 "")) = true
    ∧ blank_chars (strip_chars (is_char LF) (tabs 6 "")) = true
    ∧ classify None (tabs 6 "") = Cue
    ∧ parse_line initial_state (tabs 6 "") = Ok st'
    ∧ getvalue (scene_text st') = ""
    ∧ character_name st' = Some ""
    ∧ pending st' = false.
Proof.
  eexists. do 3 (split; [vm_compute; reflexivity|]).
  split; [vm_compute; reflexivity|]. by repeat split.
Qed.

Lemma str_app_space_ne (s : string) : s +:+ " " ≠ s.
Proof.
  intros Heq%(f_equal String.length). rewrite str_length_app in Heq.
  cbn [String.length] in Heq. lia.
Qed.

(** A line of six tabs alone has no effect on the document. *)
Lemma six_tabs_line_alone_changes_nothing :
  _parse_text_script [tabs 6 ""] = _parse_text_script [].
Proof. vm_compute. reflexivity. Qed.

(** C10 (amended).  At any point of a pass in which no cue line had an
    empty name, a line that is not empty after newline stripping,
    consists of spaces and tabs only and does not start with exactly
    six tabs is not ignored: it changes the state, content is pending
    after it, and it goes by its leading tabs as any line does.  With
    four or five leading tabs while a character is speaking it is a
    dialogue continuation: no entry is flushed, the character goes on
    speaking, the description buffer is left as it is and a single
    space is appended to the dialogue buffer.  Otherwise it is scene
    description: when a character is speaking the current entry is
    flushed with the dialogue of that character and the character is
    cleared, a single space is appended to the description buffer, and
    the buffer counts as pending content right after the line. *)
Theorem whitespace_line_goes_by_leading_tabs
    (lines : list string) (st : ParserState.t) (raw : string) :
  existsb empty_cue lines = false →
  parse_lines initial_state lines = Ok st →
  truthy (strip_chars (is_char LF) raw) = true →
  blank_chars (strip_chars (is_char LF) raw) = true →
  _count_leading_tabs (strip_chars (is_char LF) raw) ≠ 6 →
  ∃ st',
    parse_line st raw = Ok st'
    ∧ st' ≠ st
    ∧ pending st' = true
    ∧ match character_name st with
      | Some who =>
          if bool_decide (_count_leading_tabs (strip_chars (is_char LF) raw) ∈ [4; 5])
          then
            classify (Some who) raw = Continuation
            ∧ entries st' = entries st
            ∧ character_name st' = Some who
            ∧ getvalue (scene_text st') = getvalue (scene_text st)
            ∧ getvalue (dialogue_text st') = getvalue (dialogue_text st) +:+ " "
          else
            classify (Some who) raw = Description
            ∧ entries st'
              = entries st
                ++ [Entry.mk (getvalue (scene_text st))
                      (Some (Dialogue.mk who (getvalue (dialogue_text st))))]
            ∧ character_name st' = None
            ∧ getvalue (scene_text st') = " "
            ∧ getvalue (dialogue_text st') = ""
            ∧ (tell (scene_text st') >? 0)%Z = true
      | None =>
          classify None raw = Description
          ∧ entries st' = entries st
          ∧ character_name st' = None
          ∧ getvalue (scene_text st') = getvalue (scene_text st) +:+ " "
          ∧ getvalue (dialogue_text st') = ""
          ∧ (tell (scene_text st') >? 0)%Z = true
      end.
Proof.
  intros Hcue Hst Hne Hblank H6.
  assert (tidy st) as Ht.
  { rewrite parse_lines_spec in Hst. injection Hst as <-.
    by apply tidy_foldl, tidy_initial_state. }
  pose proof (tidy_wf _ Ht) as Hwf.
  assert (∀ active, classify active raw
            = if bool_decide (_count_leading_tabs (strip_chars (is_char LF) raw) ∈ [4; 5])
                 && bool_decide (active ≠ None)
              then Continuation else Description) as Hk.
  { intros active. unfold classify.
    rewrite Hne, (blank_chars_no_heading _ Hblank). cbn [negb].
    by rewrite bool_decide_eq_false_2 by done. }
  exists (after_line st raw). split; [apply parse_line_spec|].
  unfold after_line. rewrite Hk.
  destruct (character_name st) as [who|] eqn:Hn.
  - assert (truthy_opt (Some who) = true) as Hwho.
    { destruct (truthy_opt (Some who)) eqn:Hf; [done|].
      rewrite <-Hn in Hf. apply (tidy_named _ Ht) in Hf. congruence. }
    rewrite (bool_decide_eq_true_2 (Some who ≠ None)) by done. rewrite andb_true_r.
    destruct (bool_decide (_ ∈ [4; 5])).
    + cbn [entries character_name scene_text dialogue_text].
      rewrite appended_value by apply Hwf. rewrite (blank_chars_strip _ Hblank).
      change (str_lower "" +:+ " ") with " ".
      split.
      { intros Heq%(f_equal (λ s, getvalue (dialogue_text s))).
        cbn [dialogue_text] in Heq.
        rewrite appended_value, (blank_chars_strip _ Hblank) in Heq by apply Hwf.
        by apply str_app_space_ne in Heq. }
      split; [unfold pending; cbn [character_name]; by rewrite Hwho, orb_true_r|].
      split; [apply Hk|]. done.
    + rewrite Hwho. cbv zeta. unfold flush.
      cbn [entries character_name scene_text dialogue_text].
      split.
      { intros Heq%(f_equal (λ s, length (entries s))). cbn [entries] in Heq.
        rewrite length_app in Heq. cbn [length] in Heq. lia. }
      split; [apply pending_appended|].
      split; [by rewrite Hk, andb_false_l |].
      split. { unfold entry_of. rewrite Hn. by destruct who. }
      split; [done|].
      split. { rewrite appended_value by (by left).
               by rewrite (blank_chars_strip _ Hblank). }
      split; [done|apply tell_appended].
  - rewrite andb_false_r. cbn [truthy_opt]. cbv zeta.
    cbn [entries character_name scene_text dialogue_text].
    rewrite appended_value by apply Hwf. rewrite (blank_chars_strip _ Hblank).
    change (str_lower "" +:+ " ") with " ".
    split.
    { intros Heq%(f_equal (λ s, getvalue (scene_text s))). cbn [scene_text] in Heq.
      rewrite appended_value, (blank_chars_strip _ Hblank) in Heq by apply Hwf.
      by apply str_app_space_ne in Heq. }
    split; [apply pending_appended|].
    split; [by rewrite Hk, andb_false_r|].
    split; [done|]. split; [done|]. split; [done|].
    split; [|apply tell_appended].
    destruct (getvalue (dialogue_text st)) eqn:Hd; [done|].
    by destruct (wf_dialogue_character _ Hwf); [rewrite Hd|].
Qed.

Lemma whitespace_line_goes_by_leading_tabs_witness :
  (∃ st st',
     parse_lines initial_state [tabs 6 "BOB"; tabs 4 "hi"] = Ok st
     ∧ parse_line st ("  " +:+ tabs 1 " ") = Ok st'
     ∧ entries st' = [Entry.mk "" (Some (Dialogue.mk "BOB" "hi "))]
     ∧ character_name st' = None
     ∧ getvalue (scene_text st') = " "
     ∧ pending st' = true)
  ∧ (∃ st st',
       parse_lines initial_state [tabs 6 "BOB"; tabs 4 "hi"] = Ok st
       ∧ parse_line st (tabs 4 " ") = Ok st'
       ∧ entries st' = []
       ∧ character_name st' = Some "BOB"
       ∧ getvalue (dialogue_text st') = "hi  ").
Proof.
  pose proof (parse_lines_spec [tabs 6 "BOB"; tabs 4 "hi"] initial_state) as Hst.
  split.
  - destruct (whitespace_line_goes_by_leading_tabs
                [tabs 6 "BOB"; tabs 4 "hi"]
                (foldl after_line initial_state [tabs 6 "BOB"; tabs 4 "hi"])
                ("  " +:+ tabs 1 " "))
      as (st' & Hst' & _ & Hp & Hm);
      [vm_compute; reflexivity|exact Hst|vm_compute; reflexivity
      |vm_compute; reflexivity|vm_compute; intros [=]|].
    eexists _, st'. split; [exact Hst|]. split; [exact Hst'|].
    revert Hm. vm_compute. intros (_ & He & Hc & Hv & _). by repeat split.
  - destruct (whitespace_line_goes_by_leading_tabs
                [tabs 6 "BOB"; tabs 4 "hi"]
                (foldl after_line initial_state [tabs 6 "BOB"; tabs 4 "hi"])
                (tabs 4 " "))
      as (st' & Hst' & _ & _ & Hm);
      [vm_compute; reflexivity|exact Hst|vm_compute; reflexivity
      |vm_compute; reflexivity|vm_compute; intros [=]|].
    eexists _, st'. split; [exact Hst|]. split; [exact Hst'|].
    revert Hm. vm_compute. intros (_ & He & Hc & _ & Hd). by repeat split.
Defined.

(** ** What does hold of every document *)

(** The two counts set after the loop agree with the document. *)
Lemma stats_agree_with_document (lines : list string) :
  ∃ doc,
    _parse_text_script lines = Ok doc
    ∧ counter_get "total_characters" (ParsedObject.stats doc)
      = length (ParsedObject.character_vocabulary doc)
    ∧ counter_get "total_scenes" (ParsedObject.stats doc)
      = length (ParsedObject.scenes doc).
Proof.
  eexists. split; [apply _parse_text_script_spec|].
  by rewrite document_total_characters, document_total_scenes.
Qed.

(** The character of every dialogue of the document is in the
    vocabulary. *)
Lemma dialogue_characters_in_vocabulary (lines : list string) :
  ∃ doc,
    _parse_text_script lines = Ok doc
    ∧ ∀ d, d ∈ dialogues (ParsedObject.scenes doc) →
           Dialogue.character d ∈ ParsedObject.character_vocabulary doc.
Proof.
  eexists. split; [apply _parse_text_script_spec|].
  pose proof (vocabulary_covers_foldl lines initial_state) as Hc.
  specialize (Hc ltac:(by intros d Hin; apply elem_of_nil in Hin)).
  set (st := foldl after_line initial_state lines) in *.
  unfold document.
  assert (vocabulary_covers (if pending st then close_scene st else st)) as Hc'.
  { destruct (pending st); auto using vocabulary_covers_close_scene. }
  cbn [ParsedObject.scenes ParsedObject.character_vocabulary].
  intros d Hin. rewrite elem_of_sorted, elem_of_elements.
  apply Hc'. apply elem_of_app. by left.
Qed.

(** Dialogue text is held only under a character name, empty or not. *)
Lemma dialogue_text_needs_character (lines : list string) (st : ParserState.t) :
  parse_lines initial_state lines = Ok st →
  getvalue (dialogue_text st) ≠ "" → character_name st ≠ None.
Proof. intros Hwf%wf_parse_lines. apply Hwf. Qed.

(** ** Inputs without an empty cue name

    When no cue line has an empty name, nothing that was built is
    dropped and the counters agree with the document. *)

Lemma document_without_empty_cue (lines : list string) :
  existsb empty_cue lines = false →
  ∃ doc,
    _parse_text_script lines = Ok doc
    ∧ counter_get "total_dialogues" (ParsedObject.stats doc)
      = length (dialogues (ParsedObject.scenes doc))
    ∧ counter_get "total_words" (ParsedObject.stats doc)
      = document_words (ParsedObject.scenes doc)
    ∧ ∀ who, who ∈ ParsedObject.character_vocabulary doc
             ↔ ∃ d, d ∈ dialogues (ParsedObject.scenes doc)
                    ∧ Dialogue.character d = who.
Proof.
  intros Hcue. destruct (dialogue_characters_in_vocabulary lines) as (doc & Hdoc & Hin).
  exists doc. split; [done|].
  rewrite _parse_text_script_spec in Hdoc. injection Hdoc as <-.
  pose proof (tidy_foldl lines initial_state Hcue tidy_initial_state) as Ht.
  destruct (document_dialogues_tidy _ Ht) as (st' & [Hd Hw Hv] & Hsc & Hst & Hvoc & He).
  unfold dialogues_so_far, words_so_far in *. rewrite He in *.
  cbn [omap list_omap sum_list_with] in *. rewrite app_nil_r in *.
  rewrite Nat.add_0_r in Hw. rewrite Hsc, Hst. unfold counter_get in *.
  rewrite !lookup_insert_ne by done. repeat split; [done|done|..].
  - rewrite Hvoc, elem_of_sorted, elem_of_elements. apply Hv.
  - intros (d & Hdin & <-). apply Hin. by rewrite Hsc.
Qed.

(** Then the test at end of input misses no dialogue text either. *)
Lemma pending_dialogue_without_empty_cue (lines : list string) (st : ParserState.t) :
  existsb empty_cue lines = false →
  parse_lines initial_state lines = Ok st →
  getvalue (dialogue_text st) ≠ "" → pending st = true.
Proof.
  intros Hcue Hst Hne. rewrite parse_lines_spec in Hst. injection Hst as <-.
  pose proof (tidy_foldl lines initial_state Hcue tidy_initial_state) as Ht.
  unfold pending.
  destruct (truthy_opt (character_name _)) eqn:Hc; [by rewrite orb_true_r|].
  by destruct (wf_dialogue_character _ (tidy_wf _ Ht) Hne), (tidy_named _ Ht Hc).
Qed.

(** ** The tests of the repository

    The assertions of [tests/test_data.py], evaluated on the model. *)

Example test_get_scene_name :
  _get_scene_name ("1" +:+ tab +:+ "scene") = Ok (Some "scene")
  ∧ _get_scene_name ("x" +:+ tab +:+ "scene") = Ok None
  ∧ _get_scene_name "xscene" = Ok None.
Proof. by vm_compute. Qed.

Example test_parse_text_script_empty_scenes :
  ∃ doc,
    _parse_text_script script_empty_scenes_text = Ok doc
    ∧ entry_counts doc = [1; 0; 0; 1]
    ∧ stat "total_characters" doc = 0
    ∧ stat "total_dialogues" doc = 0
    ∧ stat "total_scenes" doc = 4.
Proof. eexists. split; [vm_compute; reflexivity|]. by vm_compute. Qed.

Example test_parse_text_script_only_character_no_description :
  ∃ doc,
    _parse_text_script script_only_character_no_description_text = Ok doc
    ∧ entry_counts doc = [1; 1; 2]
    ∧ speakers <$> ParsedObject.scenes doc !! 2
      = Some [Some "CHARACTER X"; None]
    ∧ stat "total_characters" doc = 1
    ∧ stat "total_dialogues" doc = 1
    ∧ stat "total_scenes" doc = 3.
Proof. eexists. split; [vm_compute; reflexivity|]. by vm_compute. Qed.

Example test_parse_text_script_only_description :
  ∃ doc,
    _parse_text_script script_only_description_text = Ok doc
    ∧ speakers <$> ParsedObject.scenes doc = [[None]; [None]; [None]]
    ∧ stat "total_characters" doc = 0
    ∧ stat "total_dialogues" doc = 0
    ∧ stat "total_scenes" doc = 3.
Proof. eexists. split; [vm_compute; reflexivity|]. by vm_compute. Qed.

Example test_parse_text_script_mixed_text :
  ∃ doc,
    _parse_text_script script_mixed_text_text = Ok doc
    ∧ entry_counts doc = [1; 1; 1; 4]
    ∧ speakers <$> ParsedObject.scenes doc !! 3
      = Some [Some "PROFESSOR"; Some "PROFESSOR"; Some "BILLY"; None]
    ∧ Scene.name <$> ParsedObject.scenes doc !! 3 = Some "INT.  TEMPLE - DAY"
    ∧ stat "total_characters" doc = 2
    ∧ stat "total_dialogues" doc = 3
    ∧ stat "total_scenes" doc = 4.
Proof. eexists. split; [vm_compute; reflexivity|]. by vm_compute. Qed.

Example test_parse_text_script_mixed_text_2 :
  ∃ doc,
    _parse_text_script script_mixed_text_2_text = Ok doc
    ∧ (speakers <$> ParsedObject.scenes doc !! 1) ≫= (λ l, l !! 0)
      = Some (Some "MUNRO")
    ∧ (speakers <$> ParsedObject.scenes doc !! 1) ≫= (λ l, l !! 1)
      = Some (Some "MACTILBURGH")
    ∧ (speakers <$> ParsedObject.scenes doc !! 1) ≫= last
      = Some (Some "MOTHER (V.O.)").
Proof. eexists. split; [vm_compute; reflexivity|]. by vm_compute. Qed.

(** * Further properties

    The methods of [ParsedObject], and what the parsing pass does to its
    input beyond the statements above. *)

(** ** Label mappings *)

Lemma dict_of_snoc `{Countable K} {V} (pairs : list (K * V)) (p : K * V) :
  dict_of (pairs ++ [p]) = <[p.1 := p.2]> (dict_of pairs).
Proof. unfold dict_of. by rewrite foldl_app. Qed.

Lemma enumerate_snoc {A} (xs : list A) (x : A) :
  enumerate (xs ++ [x]) = enumerate xs ++ [(length xs, x)].
Proof. unfold enumerate. rewrite imap_app. cbn. by rewrite Nat.add_0_r. Qed.

Lemma label_to_vocabulary_lookup_list (vocabulary : list string) (i : nat) :
  dict_of (enumerate vocabulary) !! i = vocabulary !! i.
Proof.
  induction vocabulary as [|v vocabulary IH] using rev_ind; [done|].
  rewrite enumerate_snoc, dict_of_snoc. cbn [fst snd].
  destruct (decide (length vocabulary = i)) as [<-|Hne].
  - rewrite lookup_insert_eq. by rewrite list_lookup_middle.
  - rewrite lookup_insert_ne, IH by done.
    destruct (decide (i < length vocabulary)) as [Hlt|Hge].
    + by rewrite lookup_app_l.
    + rewrite !lookup_ge_None_2; [done|rewrite length_app; cbn; lia|lia].
Qed.

Lemma vocabulary_to_label_lookup_list (vocabulary : list string) (v : string) (i : nat) :
  dict_of ((λ p, (p.2, p.1)) <$> enumerate vocabulary) !! v = Some i
  ↔ vocabulary !! i = Some v ∧ ∀ j, i < j → vocabulary !! j ≠ Some v.
Proof.
  revert i. induction vocabulary as [|x vocabulary IH] using rev_ind; intros i.
  { cbn. rewrite lookup_empty. split; [done|]. by intros [? _]. }
  rewrite enumerate_snoc, fmap_snoc, dict_of_snoc. cbn [fst snd].
  destruct (decide (x = v)) as [->|Hne].
  - rewrite lookup_insert_eq. split.
    + intros [= <-]. split; [by rewrite list_lookup_middle|].
      intros j Hj. rewrite lookup_ge_None_2; [done|]. rewrite length_app. cbn. lia.
    + intros [Hi Hlast]. f_equal.
      destruct (decide (i = length vocabulary)) as [|Hi']; [done|].
      apply lookup_lt_Some in Hi as Hlt. rewrite length_app in Hlt. cbn in Hlt.
      destruct (Hlast (length vocabulary)); [lia|]. by rewrite list_lookup_middle.
  - rewrite lookup_insert_ne, IH by done. split.
    + intros [Hi Hlast]. apply lookup_lt_Some in Hi as Hlt. split.
      * by rewrite lookup_app_l.
      * intros j Hj. destruct (decide (j < length vocabulary)) as [Hjl|Hjl].
        -- rewrite lookup_app_l by done. by apply Hlast.
        -- destruct (decide (j = length vocabulary)) as [->|Hj'].
           ++ rewrite list_lookup_middle by done. congruence.
           ++ rewrite lookup_ge_None_2; [done|]. rewrite length_app. cbn. lia.
    + intros [Hi Hlast].
      assert (i < length vocabulary) as Hlt.
      { apply lookup_lt_Some in Hi as Hlt. rewrite length_app in Hlt. cbn in Hlt.
        destruct (decide (i = length vocabulary)) as [->|]; [|lia].
        rewrite list_lookup_middle in Hi by done. congruence. }
      rewrite lookup_app_l in Hi by done. split; [done|].
      intros j Hj Hjv. apply (Hlast j Hj).
      apply lookup_lt_Some in Hjv as Hjl. by rewrite lookup_app_l.
Qed.

(** X1 (label to vocabulary).  The label mapping has the labels 0..N-1
    and maps each to the vocabulary entry at that index. *)
Theorem label_to_vocabulary_is_indexing (doc : ParsedObject.t) (i : nat) :
  get_label_to_vocabulary_mapping doc !! i
  = ParsedObject.character_vocabulary doc !! i.
Proof. apply label_to_vocabulary_lookup_list. Qed.

(** X2 (vocabulary to label).  A name is mapped to the last index at
    which it occurs in the vocabulary, and names that do not occur have
    no label. *)
Theorem vocabulary_to_label_is_last_index
    (doc : ParsedObject.t) (v : string) (i : nat) :
  get_vocabulary_to_label_mapping doc !! v = Some i
  ↔ ParsedObject.character_vocabulary doc !! i = Some v
    ∧ ∀ j, i < j → ParsedObject.character_vocabulary doc !! j ≠ Some v.
Proof. apply vocabulary_to_label_lookup_list. Qed.
Lemma sorted_elements_NoDup (X : gset string) : NoDup (sorted (elements X)).
Proof. unfold sorted. rewrite merge_sort_Permutation. apply NoDup_elements. Qed.

Lemma vocabulary_to_label_is_Some (vocabulary : list string) (v : string) :
  v ∈ vocabulary →
  is_Some (dict_of ((λ p, (p.2, p.1)) <$> enumerate vocabulary) !! v).
Proof.
  induction vocabulary as [|x vocabulary IH] using rev_ind.
  { by intros ?%elem_of_nil. }
  rewrite enumerate_snoc, fmap_snoc, dict_of_snoc. cbn [fst snd].
  intros [Hin|Hin%list_elem_of_singleton]%elem_of_app.
  - destruct (decide (x = v)) as [->|Hne]; [by rewrite lookup_insert_eq|].
    rewrite lookup_insert_ne by done. auto.
  - subst. by rewrite lookup_insert_eq.
Qed.

Lemma vocabulary_to_label_elem_of (vocabulary : list string) (v : string) (i : nat) :
  dict_of ((λ p, (p.2, p.1)) <$> enumerate vocabulary) !! v = Some i →
  v ∈ vocabulary.
Proof.
  intros [Hi _]%vocabulary_to_label_lookup_list. by eapply list_elem_of_lookup_2.
Qed.

(** X3 (round trip of the mappings).  When the vocabulary has no
    duplicates the two mappings are inverse to each other. *)
Theorem label_mappings_inverse (doc : ParsedObject.t) (v : string) (i : nat) :
  NoDup (ParsedObject.character_vocabulary doc) →
  get_vocabulary_to_label_mapping doc !! v = Some i
  ↔ get_label_to_vocabulary_mapping doc !! i = Some v.
Proof.
  intros Hnd. unfold get_vocabulary_to_label_mapping, get_label_to_vocabulary_mapping.
  rewrite vocabulary_to_label_lookup_list, label_to_vocabulary_lookup_list.
  split; [by intros [Hi _]|]. intros Hi. split; [done|].
  intros j Hj Hjv. pose proof (NoDup_lookup _ _ _ _ Hnd Hi Hjv). lia.
Qed.

Lemma label_mappings_inverse_witness :
  get_vocabulary_to_label_mapping (ParsedObject.mk [] ∅ ["AIDE"; "MUNRO"]) !! "MUNRO"
  = Some 1
  ↔ get_label_to_vocabulary_mapping (ParsedObject.mk [] ∅ ["AIDE"; "MUNRO"]) !! 1
    = Some "MUNRO".
Proof.
  apply (label_mappings_inverse (ParsedObject.mk [] ∅ ["AIDE"; "MUNRO"])).
  cbn. apply NoDup_cons. split; [by intros [=]%list_elem_of_singleton|].
  apply NoDup_singleton.
Defined.

(** ** The vocabulary of a parsed document *)


(** X4 (sorted vocabulary).  The vocabulary of every parsed document is
    in ascending order of code points and has no duplicates. *)
Theorem vocabulary_sorted_without_duplicates (lines : list string) :
  ∃ doc,
    _parse_text_script lines = Ok doc
    ∧ StronglySorted String.le (ParsedObject.character_vocabulary doc)
    ∧ NoDup (ParsedObject.character_vocabulary doc).
Proof.
  eexists. split; [apply _parse_text_script_spec|]. unfold document.
  cbn [ParsedObject.character_vocabulary].
  split; [apply StronglySorted_merge_sort; apply _|apply sorted_elements_NoDup].
Qed.

(** X5 (labels of a parsed document).  For the document the parser
    returns, the two mappings are inverse to each other: the labels are
    the indices 0..N-1 of the sorted vocabulary. *)
Theorem parsed_document_labels_are_a_bijection (lines : list string) :
  ∃ doc,
    _parse_text_script lines = Ok doc
    ∧ ∀ v i, get_vocabulary_to_label_mapping doc !! v = Some i
             ↔ get_label_to_vocabulary_mapping doc !! i = Some v.
Proof.
  eexists. split; [apply _parse_text_script_spec|]. intros v i.
  unfold get_vocabulary_to_label_mapping, get_label_to_vocabulary_mapping.
  rewrite vocabulary_to_label_lookup_list, label_to_vocabulary_lookup_list.
  split; [by intros [Hi _]|]. intros Hi. split; [done|].
  intros j Hj Hjv. unfold document in Hi, Hjv.
  cbn [ParsedObject.character_vocabulary] in Hi, Hjv.
  pose proof (NoDup_lookup _ _ _ _ (sorted_elements_NoDup _) Hi Hjv). lia.
Qed.

(** ** The dataset export *)

Lemma save_entries_spec (fs : file_system) (m : gmap string nat)
    (es : list Entry.t) (file : string) :
  match save_entries fs m file es with
  | Written file' =>
      ∃ labels,
        Forall2 (λ d l, m !! Dialogue.character d = Some l)
                (omap Entry.dialogue es) labels
        ∧ file' = file +:+ str_concat (zip_with dataset_line (omap Entry.dialogue es) labels)
  | KeyError key file' =>
      m !! key = None ∧ ∃ d, d ∈ omap Entry.dialogue es ∧ Dialogue.character d = key
  | Failed e => e = OSError
  end.
Proof.
  revert file. induction es as [|e es IH]; intros file.
  { cbn. exists []. split; [constructor|]. by rewrite str_app_nil_r. }
  cbn [save_entries omap list_omap]. destruct (Entry.dialogue e) as [d|]; [|apply IH].
  destruct (m !! Dialogue.character d) as [label|] eqn:Hl.
  - cbv zeta. destruct (accepts fs file _); [|done].
    destruct (accepts fs (file +:+ _) _); [|done].
    specialize (IH ((file +:+ json_dumps_record (Dialogue.text d) label) +:+ String LF "")).
    destruct (save_entries _ _ _ es) as [file'|key file'|err].
    + destruct IH as (labels & Hall & ->). exists (label :: labels).
      split; [by constructor|]. cbn [zip_with str_concat foldr]. unfold dataset_line.
      by rewrite !str_app_assoc.
    + destruct IH as (Hk & d' & Hin & Hc). split; [done|].
      exists d'. split; [by right|done].
    + done.
  - split; [done|]. exists d. split; [by left|done].
Qed.

Lemma save_scenes_spec (fs : file_system) (m : gmap string nat)
    (scs : list Scene.t) (file : string) :
  match save_scenes fs m file scs with
  | Written file' =>
      ∃ labels,
        Forall2 (λ d l, m !! Dialogue.character d = Some l) (dialogues scs) labels
        ∧ file' = file +:+ str_concat (zip_with dataset_line (dialogues scs) labels)
  | KeyError key file' =>
      m !! key = None ∧ ∃ d, d ∈ dialogues scs ∧ Dialogue.character d = key
  | Failed e => e = OSError
  end.
Proof.
  revert file. induction scs as [|s scs IH]; intros file.
  { cbn. exists []. split; [constructor|]. by rewrite str_app_nil_r. }
  cbn [save_scenes].
  assert (dialogues (s :: scs) = omap Entry.dialogue (Scene.entries s) ++ dialogues scs)
    as -> by (unfold dialogues, all_entries; cbn; by rewrite omap_app).
  pose proof (save_entries_spec fs m (Scene.entries s) file) as Hs.
  destruct (save_entries fs m file (Scene.entries s)) as [file1|key file1|err].
  - destruct Hs as (labels1 & Hall1 & ->).
    specialize (IH (file +:+ str_concat (zip_with dataset_line
                     (omap Entry.dialogue (Scene.entries s)) labels1))).
    destruct (save_scenes fs m _ scs) as [file'|key file'|err].
    + destruct IH as (labels & Hall & ->). exists (labels1 ++ labels).
      split; [by apply Forall2_app|].
      rewrite zip_with_app by (by eapply Forall2_length).
      unfold str_concat. rewrite foldr_app.
      generalize (zip_with dataset_line (omap Entry.dialogue (Scene.entries s)) labels1).
      intros rs. rewrite str_app_assoc. f_equal.
      induction rs as [|r rs IHrs]; [done|]. cbn [foldr]. by rewrite str_app_assoc, IHrs.
    + destruct IH as (Hk & d & Hin & Hc). split; [done|]. exists d.
      split; [|done]. apply elem_of_app. by right.
    + done.
  - destruct Hs as (Hk & d & Hin & Hc). split; [done|]. exists d.
    split; [|done]. apply elem_of_app. by left.
  - done.
Qed.

(** Where every write succeeds the loops do not fail. *)
Lemma save_entries_accepted (fs : file_system) (m : gmap string nat)
    (es : list Entry.t) (file : string) (e : exn) :
  (∀ file data, accepts fs file data = true) →
  save_entries fs m file es ≠ Failed e.
Proof.
  intros Hacc. revert file. induction es as [|x es IH]; intros file; [done|].
  cbn [save_entries]. destruct (Entry.dialogue x) as [d|]; [|apply IH].
  destruct (m !! Dialogue.character d) as [label|]; [|done].
  cbv zeta. rewrite !Hacc. apply IH.
Qed.

Lemma save_scenes_accepted (fs : file_system) (m : gmap string nat)
    (scs : list Scene.t) (file : string) (e : exn) :
  (∀ file data, accepts fs file data = true) →
  save_scenes fs m file scs ≠ Failed e.
Proof.
  intros Hacc. revert file. induction scs as [|s scs IH]; intros file; [done|].
  cbn [save_scenes].
  pose proof (save_entries_accepted fs m (Scene.entries s) file) as Hs.
  destruct (save_entries fs m file (Scene.entries s)) as [file1|key file1|err];
    [apply IH|done|by destruct (Hs err Hacc)].
Qed.

Lemma save_scenes_returns_iff (fs : file_system) (doc : ParsedObject.t) :
  (∀ file data, accepts fs file data = true) →
  (∃ file, save_scenes fs (get_vocabulary_to_label_mapping doc) ""
             (ParsedObject.scenes doc) = Written file)
  ↔ ∀ d, d ∈ dialogues (ParsedObject.scenes doc) →
         Dialogue.character d ∈ ParsedObject.character_vocabulary doc.
Proof.
  intros Hacc. unfold get_vocabulary_to_label_mapping.
  pose proof (save_scenes_spec fs
    (dict_of ((λ p, (p.2, p.1)) <$> enumerate (ParsedObject.character_vocabulary doc)))
    (ParsedObject.scenes doc) "") as Hs.
  pose proof (save_scenes_accepted fs
    (dict_of ((λ p, (p.2, p.1)) <$> enumerate (ParsedObject.character_vocabulary doc)))
    (ParsedObject.scenes doc) "") as Hf.
  destruct (save_scenes _ _ _ _) as [file|key file|err].
  - destruct Hs as (labels & Hall & _). split; [|by eauto].
    intros _ d Hin. apply list_elem_of_lookup in Hin as [i Hi].
    destruct (Forall2_lookup_l _ _ _ _ _ Hall Hi) as (l & _ & Hl).
    by eapply vocabulary_to_label_elem_of.
  - destruct Hs as (Hk & d & Hin & <-). split; [by intros [? [=]]|].
    intros Hall. destruct (vocabulary_to_label_is_Some _ _ (Hall d Hin)) as [l Hl].
    congruence.
  - by destruct (Hf err Hacc).
Qed.

Lemma save_written_spec (fs : file_system) (doc : ParsedObject.t)
    (output_filename file : string) :
  save_character_dialogue_dataset_in_json_format fs doc output_filename = Written file →
  ∃ labels,
    Forall2 (λ d l, ParsedObject.character_vocabulary doc !! l
                    = Some (Dialogue.character d))
            (dialogues (ParsedObject.scenes doc)) labels
    ∧ file = str_concat (zip_with dataset_line (dialogues (ParsedObject.scenes doc)) labels).
Proof.
  unfold save_character_dialogue_dataset_in_json_format, get_vocabulary_to_label_mapping.
  destruct (opens fs output_filename); [|done].
  pose proof (save_scenes_spec fs
    (dict_of ((λ p, (p.2, p.1)) <$> enumerate (ParsedObject.character_vocabulary doc)))
    (ParsedObject.scenes doc) "") as Hs.
  intros Heq. rewrite Heq in Hs. destruct Hs as (labels & Hall & ->).
  exists labels. split; [|done].
  eapply Forall2_impl; [exact Hall|]. cbn. intros d l Hl.
  by apply vocabulary_to_label_lookup_list in Hl as [Hi _].
Qed.



(** X7 (export, the missing key).  When the export raises [KeyError], the
    key is the character of a dialogue of the document and is not in the
    vocabulary. *)
Theorem export_key_error_is_unknown_character
    (fs : file_system) (doc : ParsedObject.t) (output_filename key file : string) :
  save_character_dialogue_dataset_in_json_format fs doc output_filename
  = KeyError key file →
  (key ∉ ParsedObject.character_vocabulary doc)
  ∧ (∃ d, d ∈ dialogues (ParsedObject.scenes doc) ∧ Dialogue.character d = key).
Proof.
  unfold save_character_dialogue_dataset_in_json_format, get_vocabulary_to_label_mapping.
  destruct (opens fs output_filename); [|done].
  pose proof (save_scenes_spec fs
    (dict_of ((λ p, (p.2, p.1)) <$> enumerate (ParsedObject.character_vocabulary doc)))
    (ParsedObject.scenes doc) "") as Hs.
  intros Heq. rewrite Heq in Hs. destruct Hs as (Hk & Hd). split; [|done].
  intros Hin. destruct (vocabulary_to_label_is_Some _ _ Hin) as [l Hl]. congruence.
Qed.

Lemma export_key_error_is_unknown_character_witness :
  ("BOB" ∉ ["AIDE"])
  ∧ (∃ d, d ∈ dialogues [Scene.mk "S" [Entry.mk "" (Some (Dialogue.mk "BOB" "hi "))]]
          ∧ Dialogue.character d = "BOB").
Proof.
  apply (export_key_error_is_unknown_character working
           (ParsedObject.mk [Scene.mk "S" [Entry.mk "" (Some (Dialogue.mk "BOB" "hi "))]]
              ∅ ["AIDE"]) "dataset.json" "BOB" "").
  vm_compute. reflexivity.
Defined.

(** X8 (export, what is written).  When the export returns, the file is
    the concatenation, in document order, of one line per dialogue: the
    JSON record of the dialogue's text and a label at which the
    vocabulary holds the dialogue's character, followed by a newline. *)
Theorem export_writes_one_line_per_dialogue
    (fs : file_system) (doc : ParsedObject.t) (output_filename file : string) :
  save_character_dialogue_dataset_in_json_format fs doc output_filename = Written file →
  ∃ labels,
    Forall2 (λ d l, ParsedObject.character_vocabulary doc !! l
                    = Some (Dialogue.character d))
            (dialogues (ParsedObject.scenes doc)) labels
    ∧ file = str_concat (zip_with dataset_line (dialogues (ParsedObject.scenes doc)) labels).
Proof. apply save_written_spec. Qed.

Lemma export_writes_one_line_per_dialogue_witness :
  ∃ labels,
    Forall2 (λ d l, ["AIDE"; "BOB"] !! l = Some (Dialogue.character d))
            (dialogues [Scene.mk "S" [Entry.mk "" (Some (Dialogue.mk "BOB" "hi "))]])
            labels
    ∧ "{" +:+ dq +:+ "text" +:+ dq +:+ ": " +:+ dq +:+ "hi " +:+ dq +:+ ", "
        +:+ dq +:+ "label" +:+ dq +:+ ": 1}" +:+ String LF ""
      = str_concat
          (zip_with dataset_line
             (dialogues [Scene.mk "S" [Entry.mk "" (Some (Dialogue.mk "BOB" "hi "))]])
             labels).
Proof.
  apply (export_writes_one_line_per_dialogue working
           (ParsedObject.mk [Scene.mk "S" [Entry.mk "" (Some (Dialogue.mk "BOB" "hi "))]]
              ∅ ["AIDE"; "BOB"]) "dataset.json").
  vm_compute. reflexivity.
Defined.

(** *** The lines of the file *)

Lemma str_all_app (p : ascii → bool) (s t : string) :
  str_all p (s +:+ t) = str_all p s && str_all p t.
Proof.
  induction s as [|c s IH]; [done|]. rewrite str_app_cons. cbn [str_all].
  by rewrite IH, andb_assoc.
Qed.

Lemma count_char_app (x : ascii) (s t : string) :
  count_char x (s +:+ t) = count_char x s + count_char x t.
Proof.
  induction s as [|c s IH]; [done|]. rewrite str_app_cons. cbn [count_char].
  rewrite IH. lia.
Qed.

Lemma count_char_printable (s : string) :
  str_all printable s = true → count_char LF s = 0.
Proof.
  induction s as [|c s IH]; [done|]. cbn [str_all count_char].
  intros [Hc Hs]%andb_prop. rewrite (IH Hs).
  unfold is_char. case_bool_decide as Heq; [|done]. by subst.
Qed.

Lemma json_escape_char_printable (c : ascii) :
  str_all printable (json_escape_char c) = true.
Proof. destruct c as [[] [] [] [] [] [] [] []]; vm_compute; reflexivity. Qed.

Lemma json_escape_printable (s : string) : str_all printable (json_escape s) = true.
Proof.
  induction s as [|c s IH]; [done|]. cbn [json_escape].
  by rewrite str_all_app, json_escape_char_printable, IH.
Qed.

Lemma json_string_printable (s : string) : str_all printable (json_string s) = true.
Proof.
  unfold json_string. cbn [str_all]. rewrite str_all_app, json_escape_printable. done.
Qed.

Lemma string_of_uint_printable (d : Decimal.uint) :
  str_all printable (NilEmpty.string_of_uint d) = true.
Proof. induction d; cbn [NilEmpty.string_of_uint str_all]; by rewrite ?IHd. Qed.

Lemma json_dumps_record_printable (text : string) (label : nat) :
  str_all printable (json_dumps_record text label) = true.
Proof.
  unfold json_dumps_record, repr_int.
  by rewrite !str_all_app, !json_string_printable, string_of_uint_printable.
Qed.

Lemma dataset_lines_count (ds : list Dialogue.t) (labels : list nat) :
  length ds = length labels →
  count_char LF (str_concat (zip_with dataset_line ds labels)) = length ds
  ∧ str_all (λ c, printable c || is_char LF c)
      (str_concat (zip_with dataset_line ds labels)) = true.
Proof.
  revert labels. induction ds as [|d ds IH]; intros [|l labels] Hlen; try done.
  cbn [zip_with str_concat foldr length] in *.
  destruct (IH labels ltac:(lia)) as [IHc IHa]. unfold str_concat in *.
  unfold dataset_line at 1 3.
  rewrite !count_char_app, !str_all_app, IHc, IHa.
  rewrite (count_char_printable _ (json_dumps_record_printable _ _)).
  split; [done|]. rewrite andb_true_r. cbn [str_all]. rewrite andb_true_r.
  pose proof (json_dumps_record_printable (Dialogue.text d) l) as Hp.
  revert Hp. generalize (json_dumps_record (Dialogue.text d) l). clear.
  induction s as [|c s IHs]; [done|]. cbn [str_all].
  intros [-> Hs]%andb_prop. by rewrite IHs.
Qed.

(** X9 (export, JSON lines).  When the export returns, the file holds
    printable ASCII and newlines only, and as many newlines as the
    document has dialogues: no record spans two lines, whatever the
    dialogue text contains. *)
Theorem export_file_has_one_newline_per_dialogue
    (fs : file_system) (doc : ParsedObject.t) (output_filename file : string) :
  save_character_dialogue_dataset_in_json_format fs doc output_filename = Written file →
  count_char LF file = length (dialogues (ParsedObject.scenes doc))
  ∧ str_all (λ c, printable c || is_char LF c) file = true.
Proof.
  intros (labels & Hall & ->)%save_written_spec.
  apply dataset_lines_count. by eapply Forall2_length.
Qed.

Lemma export_file_has_one_newline_per_dialogue_witness :
  ∃ file,
    save_character_dialogue_dataset_in_json_format working
      (ParsedObject.mk
         [Scene.mk "S" [Entry.mk "" (Some (Dialogue.mk "BOB" ("a" +:+ String LF "b")))]]
         ∅ ["BOB"]) "dataset.json" = Written file
    ∧ count_char LF file = 1.
Proof.
  eexists. split; [vm_compute; reflexivity|].
  apply (export_file_has_one_newline_per_dialogue working
           (ParsedObject.mk
              [Scene.mk "S" [Entry.mk "" (Some (Dialogue.mk "BOB" ("a" +:+ String LF "b")))]]
              ∅ ["BOB"]) "dataset.json").
  vm_compute. reflexivity.
Defined.

(** X10 (export of a parsed document).  The export of the document the
    parser returns never raises [KeyError], whatever the lines, the
    file system and the file name; it returns normally when the output
    file opens and every write succeeds. *)
Theorem export_of_parsed_document_returns (lines : list string) :
  ∃ doc,
    _parse_text_script lines = Ok doc
    ∧ ∀ fs output_filename,
        (∀ key file,
           save_character_dialogue_dataset_in_json_format fs doc output_filename
           ≠ KeyError key file)
        ∧ (reliable fs output_filename →
           ∃ file,
             save_character_dialogue_dataset_in_json_format fs doc output_filename
             = Written file).
Proof.
  destruct (dialogue_characters_in_vocabulary lines) as (doc & Hdoc & Hin).
  exists doc. split; [done|]. intros fs output_filename. split.
  - intros key file.
    unfold save_character_dialogue_dataset_in_json_format, get_vocabulary_to_label_mapping.
    destruct (opens fs output_filename); [|done].
    pose proof (save_scenes_spec fs
      (dict_of ((λ p, (p.2, p.1)) <$> enumerate (ParsedObject.character_vocabulary doc)))
      (ParsedObject.scenes doc) "") as Hs.
    intros Heq. rewrite Heq in Hs. destruct Hs as (Hk & d & Hd & <-).
    destruct (vocabulary_to_label_is_Some _ _ (Hin d Hd)) as [l Hl]. congruence.
  - intros [Hopen Hacc]. unfold save_character_dialogue_dataset_in_json_format.
    rewrite Hopen. by apply save_scenes_returns_iff.
Qed.

(** ** Lines that do not count *)

Lemma foldl_after_line_filter (lines : list string) (st : ParserState.t) :
  foldl after_line st (filter (λ raw, is_nonblank raw = true) lines)
  = foldl after_line st lines.
Proof.
  revert st. induction lines as [|raw lines IH]; intros st; [done|].
  destruct (is_nonblank raw) eqn:Hb.
  - rewrite filter_cons_True by done. cbn [foldl]. apply IH.
  - rewrite filter_cons_False by congruence. cbn [foldl].
    by rewrite after_line_blank, IH.
Qed.

(** X11 (blank lines).  Lines that are empty after newline stripping have
    no effect at all: removing them from the input gives the same
    document. *)
Theorem blank_lines_are_ignored (lines : list string) :
  _parse_text_script (filter (λ raw, is_nonblank raw = true) lines)
  = _parse_text_script lines.
Proof. by rewrite !_parse_text_script_spec, foldl_after_line_filter. Qed.

Lemma rstrip_idemp (p : ascii → bool) (s : string) :
  rstrip p (rstrip p s) = rstrip p s.
Proof.
  induction s as [|c s IH]; [done|]. cbn [rstrip].
  destruct (rstrip p s) as [|d r] eqn:Hr.
  - destruct (p c) eqn:Hc; [done|]. cbn [rstrip]. by rewrite Hc.
  - cbn [rstrip]. cbn [rstrip] in IH. by rewrite IH.
Qed.

Lemma lstrip_head_outside (p : ascii → bool) (s : string) :
  head_outside p (lstrip p s).
Proof.
  induction s as [|c s IH]; [done|]. cbn [lstrip].
  by destruct (p c) eqn:Hc.
Qed.

Lemma rstrip_head_outside (p : ascii → bool) (s : string) :
  head_outside p s → head_outside p (rstrip p s).
Proof.
  destruct s as [|c s]; [done|]. cbn [head_outside rstrip]. intros Hc.
  destruct (rstrip p s); by rewrite ?Hc.
Qed.

Lemma lstrip_fixed (p : ascii → bool) (s : string) :
  head_outside p s → lstrip p s = s.
Proof. destruct s as [|c s]; [done|]. cbn. by intros ->. Qed.

Lemma strip_chars_idemp (p : ascii → bool) (s : string) :
  strip_chars p (strip_chars p s) = strip_chars p s.
Proof.
  unfold strip_chars.
  rewrite (lstrip_fixed p (rstrip p (lstrip p s)))
    by apply rstrip_head_outside, lstrip_head_outside.
  apply rstrip_idemp.
Qed.

Lemma after_line_strip (st : ParserState.t) (raw : string) :
  after_line st (strip_chars (is_char LF) raw) = after_line st raw.
Proof. unfold after_line, classify. by rewrite strip_chars_idemp. Qed.

(** X12 (newline terminators).  A line is read the same with or without
    newlines around it: stripping the newlines of every line beforehand
    gives the same document. *)
Theorem newlines_around_lines_are_ignored (lines : list string) :
  _parse_text_script (strip_chars (is_char LF) <$> lines)
  = _parse_text_script lines.
Proof.
  rewrite !_parse_text_script_spec. do 2 f_equal.
  generalize initial_state. induction lines as [|raw lines IH]; intros st; [done|].
  cbn [fmap list_fmap foldl]. rewrite after_line_strip. apply IH.
Qed.

(** ** Leading tabs *)

Lemma _count_leading_tabs_tabs (n : nat) (s : string) :
  _count_leading_tabs (tabs n s) = n + _count_leading_tabs s.
Proof.
  unfold tabs. induction n as [|n IH]; [done|]. cbn [str_repeat].
  rewrite str_app_cons. cbn [_count_leading_tabs]. by rewrite IH.
Qed.

Lemma _count_leading_tabs_head_outside (s : string) :
  head_outside (is_char TAB) s → _count_leading_tabs s = 0.
Proof. destruct s as [|c s]; [done|]. cbn. by intros ->. Qed.

Lemma _count_leading_tabs_decomposition (line : string) :
  line = tabs (_count_leading_tabs line)
              (str_drop (_count_leading_tabs line) line)
  ∧ head_outside (is_char TAB) (str_drop (_count_leading_tabs line) line).
Proof.
  unfold tabs. induction line as [|c line [IH1 IH2]]; [done|].
  cbn [_count_leading_tabs]. destruct (is_char TAB c) eqn:Hc.
  - cbn [str_repeat str_drop]. rewrite str_app_cons, <-IH1.
    apply bool_decide_eq_true in Hc as ->. done.
  - done.
Qed.

(** X13 (leading tabs).  [_count_leading_tabs] returns [n] exactly for the
    lines made of [n] tabs followed by a rest that does not start with a
    tab. *)
Theorem count_leading_tabs_characterised (line : string) (n : nat) :
  _count_leading_tabs line = n
  ↔ ∃ rest, line = tabs n rest ∧ head_outside (is_char TAB) rest.
Proof.
  split.
  - intros <-. eexists. apply _count_leading_tabs_decomposition.
  - intros (rest & -> & Hrest).
    by rewrite _count_leading_tabs_tabs, _count_leading_tabs_head_outside, Nat.add_0_r.
Qed.

(** ** Cues, dialogues and the vocabulary *)


Lemma classify_none (active : option string) (raw : string) :
  classify None raw
  = match classify active raw with
    | Continuation => Description
    | k => k
    end.
Proof.
  unfold classify. destruct (negb _); [done|]. destruct (heading_name _); [done|].
  case_bool_decide; [done|]. cbn [andb bool_decide]. rewrite andb_false_r.
  by destruct (_ && _).
Qed.

Lemma truthy_opt_pending (st : ParserState.t) :
  pending st = false → truthy_opt (character_name st) = false.
Proof. unfold pending. by intros [_ ?]%orb_false_elim. Qed.

Lemma cues_counted_flush (st : ParserState.t) :
  counter_get "total_dialogues" (stats (flush st)) = cues_counted st.
Proof.
  unfold cues_counted, flush, stats_after_entry. cbn [stats].
  rewrite counter_get_add_ne by done.
  destruct (truthy_opt _); [|lia].
  by rewrite counter_get_add_ne, counter_get_add.
Qed.

Lemma cues_known_flush (st : ParserState.t) :
  character_vocabulary (flush st) = cues_known st.
Proof.
  unfold cues_known, flush, vocabulary_after_entry. cbn [character_vocabulary].
  destruct (character_name st) as [[|c who]|]; [|done|]; by rewrite union_empty_r_L.
Qed.

Lemma cues_known_quiet (st : ParserState.t) :
  truthy_opt (character_name st) = false → cues_known st = character_vocabulary st.
Proof.
  unfold cues_known. destruct (character_name st) as [[|c who]|]; [|done|];
    intros _; by rewrite union_empty_r_L.
Qed.

Lemma cues_counted_quiet (st : ParserState.t) :
  truthy_opt (character_name st) = false →
  cues_counted st = counter_get "total_dialogues" (stats st).
Proof. unfold cues_counted. intros ->. lia. Qed.

(** The counter and the vocabulary after an entry was added if one was
    due. *)
Lemma cues_after_flush_if (st : ParserState.t) (b : bool) :
  (b = false → truthy_opt (character_name st) = false) →
  counter_get "total_dialogues" (stats (if b then flush st else st)) = cues_counted st
  ∧ character_vocabulary (if b then flush st else st) = cues_known st.
Proof.
  destruct b; intros Hb.
  - by rewrite cues_counted_flush, cues_known_flush.
  - by rewrite cues_counted_quiet, cues_known_quiet by auto.
Qed.

Lemma cues_close_scene (st : ParserState.t) :
  counter_get "total_dialogues" (stats (close_scene st)) = cues_counted st
  ∧ character_vocabulary (close_scene st) = cues_known st.
Proof.
  unfold close_scene. cbn [stats character_vocabulary].
  apply cues_after_flush_if, truthy_opt_pending.
Qed.

Lemma cues_after_line (st : ParserState.t) (raw : string) :
  cues_counted (after_line st raw)
  = cues_counted st + length (option_list (cue_name raw))
  ∧ cues_known (after_line st raw)
    = cues_known st ∪ list_to_set (option_list (cue_name raw)).
Proof.
  unfold cue_name. rewrite (classify_none (character_name st)). unfold after_line.
  destruct (classify (character_name st) raw) eqn:Hk; cbn [option_list option_rect length list_to_set].
  - by rewrite Nat.add_0_r, union_empty_r_L.
  - destruct (cues_close_scene st) as [Hc Hv].
    unfold cues_counted at 1, cues_known at 1.
    cbn [stats character_vocabulary character_name truthy_opt].
    by rewrite Hc, Hv, !Nat.add_0_r, !union_empty_r_L.
  - destruct (cues_after_flush_if st (truthy_opt (character_name st))) as [Hc Hv]; [done|].
    unfold cues_counted at 1, cues_known at 1.
    cbn [stats character_vocabulary character_name truthy_opt]. rewrite Hc, Hv.
    destruct (str_strip _) as [|c who]; cbn [truthy option_list option_rect length list_to_set];
      [by rewrite union_empty_r_L|]. by rewrite union_empty_r_L.
  - by rewrite Nat.add_0_r, union_empty_r_L.
  - destruct (cues_after_flush_if st (truthy_opt (character_name st))) as [Hc Hv]; [done|].
    rewrite Nat.add_0_r, union_empty_r_L.
    destruct (truthy_opt (character_name st)) eqn:Ht.
    + unfold cues_counted at 1, cues_known at 1.
      cbn [stats character_vocabulary character_name truthy_opt flush].
      cbn [flush stats character_vocabulary] in Hc, Hv.
      by rewrite Hc, Hv, Nat.add_0_r, union_empty_r_L.
    + done.
Qed.

Lemma cues_foldl (lines : list string) (st : ParserState.t) :
  cues_counted (foldl after_line st lines)
  = cues_counted st + length (cue_names lines)
  ∧ cues_known (foldl after_line st lines)
    = cues_known st ∪ list_to_set (cue_names lines).
Proof.
  revert st. induction lines as [|raw lines IH]; intros st.
  { cbn. by rewrite Nat.add_0_r, union_empty_r_L. }
  cbn [foldl]. destruct (IH (after_line st raw)) as [-> ->].
  destruct (cues_after_line st raw) as [-> ->].
  unfold cue_names. cbn [omap list_omap].
  destruct (cue_name raw); cbn [option_list option_rect length list_to_set app].
  - split; [lia|]. by rewrite union_empty_r_L, union_assoc_L.
  - by rewrite Nat.add_0_r, union_empty_r_L.
Qed.

Lemma cues_document (st : ParserState.t) :
  counter_get "total_dialogues" (ParsedObject.stats (document st)) = cues_counted st
  ∧ ∀ who, who ∈ ParsedObject.character_vocabulary (document st)
           ↔ who ∈ cues_known st.
Proof.
  unfold document. cbn [ParsedObject.stats ParsedObject.character_vocabulary].
  unfold counter_get at 1. rewrite !lookup_insert_ne by done.
  fold (counter_get "total_dialogues"
          (stats (if pending st then close_scene st else st))).
  assert (counter_get "total_dialogues" (stats (if pending st then close_scene st else st))
          = cues_counted st
          ∧ character_vocabulary (if pending st then close_scene st else st)
            = cues_known st) as [-> ->].
  { destruct (pending st) eqn:Hp; [apply cues_close_scene|].
    apply truthy_opt_pending in Hp.
    by rewrite cues_counted_quiet, cues_known_quiet. }
  split; [done|]. intros who. by rewrite elem_of_sorted, elem_of_elements.
Qed.

(** X14 (dialogue count).  [total_dialogues] is the number of cue lines
    with a non-empty name, whatever the lines. *)
Theorem total_dialogues_counts_named_cues (lines : list string) :
  ∃ doc,
    _parse_text_script lines = Ok doc
    ∧ counter_get "total_dialogues" (ParsedObject.stats doc)
      = length (cue_names lines).
Proof.
  eexists. split; [apply _parse_text_script_spec|].
  destruct (cues_document (foldl after_line initial_state lines)) as [-> _].
  by destruct (cues_foldl lines initial_state) as [-> _].
Qed.

(** X15 (vocabulary from the input).  The vocabulary holds exactly the
    non-empty names of the cue lines, whatever the lines. *)
Theorem vocabulary_is_the_named_cues (lines : list string) :
  ∃ doc,
    _parse_text_script lines = Ok doc
    ∧ ∀ who, who ∈ ParsedObject.character_vocabulary doc ↔ who ∈ cue_names lines.
Proof.
  eexists. split; [apply _parse_text_script_spec|]. intros who.
  destruct (cues_document (foldl after_line initial_state lines)) as [_ ->].
  destruct (cues_foldl lines initial_state) as [_ ->].
  unfold cues_known at 1. cbn [initial_state character_vocabulary character_name].
  rewrite !union_empty_l_L. apply elem_of_list_to_set.
Qed.

Lemma size_list_to_set_le (l : list string) :
  size (list_to_set l : gset string) ≤ length l.
Proof.
  induction l as [|x l IH]; [done|]. rewrite list_to_set_cons, size_union_alt.
  rewrite size_singleton. cbn [length].
  assert (size (list_to_set l ∖ {[x]} : gset string) ≤ size (list_to_set l : gset string)).
  { apply subseteq_size. intros y Hy. by apply elem_of_difference in Hy as [? _]. }
  lia.
Qed.

(** X16 (speakers and dialogues).  The number of distinct speakers never
    exceeds the number of dialogues. *)
Theorem total_characters_within_total_dialogues (lines : list string) :
  ∃ doc,
    _parse_text_script lines = Ok doc
    ∧ counter_get "total_characters" (ParsedObject.stats doc)
      ≤ counter_get "total_dialogues" (ParsedObject.stats doc).
Proof.
  eexists. split; [apply _parse_text_script_spec|].
  destruct (cues_document (foldl after_line initial_state lines)) as [-> Hv].
  destruct (cues_foldl lines initial_state) as [-> Hk].
  rewrite document_total_characters.
  set (st := foldl after_line initial_state lines) in *.
  assert (ParsedObject.character_vocabulary (document st)
          ≡ₚ elements (cues_known st)) as ->.
  { apply NoDup_Permutation; [unfold document; apply sorted_elements_NoDup
                             |apply NoDup_elements|].
    intros who. by rewrite Hv, elem_of_elements. }
  rewrite Hk. unfold cues_known at 1, cues_counted.
  cbn [initial_state character_vocabulary character_name stats truthy_opt].
  rewrite !union_empty_l_L.
  change (length (elements ?X)) with (size X). pose proof (size_list_to_set_le (cue_names lines)).
  unfold counter_get. rewrite lookup_empty. cbn. lia.
Qed.

(** ** Scenes in input order *)

Lemma heading_name_of_raw (active : option string) (raw : string) :
  match classify None raw with
  | Heading new_name => Some new_name
  | _ => None
  end
  = match classify active raw with
    | Heading new_name => Some new_name
    | _ => None
    end.
Proof. rewrite (classify_none active). by destruct (classify active raw). Qed.

Lemma scene_names_close_scene (st : ParserState.t) :
  Scene.name <$> scenes (close_scene st)
  = (Scene.name <$> scenes st) ++ [scene_name st].
Proof.
  unfold close_scene. cbn [scenes]. rewrite fmap_app.
  by destruct (pending st).
Qed.

Lemma scene_names_after_line (st : ParserState.t) (raw : string) :
  (Scene.name <$> scenes (after_line st raw)) ++ [scene_name (after_line st raw)]
  = ((Scene.name <$> scenes st) ++ [scene_name st]) ++ heading_names [raw].
Proof.
  unfold heading_names. cbn [omap list_omap].
  rewrite (heading_name_of_raw (character_name st)). unfold after_line.
  destruct (classify (character_name st) raw); cbn [scenes scene_name];
    rewrite ?app_nil_r; try done; try by destruct (truthy_opt _).
  by rewrite scene_names_close_scene.
Qed.

Lemma heading_names_app (l1 l2 : list string) :
  heading_names (l1 ++ l2) = heading_names l1 ++ heading_names l2.
Proof. apply omap_app. Qed.

Lemma scene_names_foldl (lines : list string) (st : ParserState.t) :
  (Scene.name <$> scenes (foldl after_line st lines))
    ++ [scene_name (foldl after_line st lines)]
  = ((Scene.name <$> scenes st) ++ [scene_name st]) ++ heading_names lines.
Proof.
  revert st. induction lines as [|raw lines IH]; intros st.
  { by rewrite app_nil_r. }
  cbn [foldl]. rewrite IH, scene_names_after_line.
  change (raw :: lines) with ([raw] ++ lines).
  by rewrite heading_names_app, app_assoc.
Qed.

(** X17 (scene order).  The names of the scenes of the document are
    "SCRIPT TITLE" followed by the names of the heading lines in input
    order; the scene of the last heading (or the title scene, when there
    is no heading) is there exactly when content is pending as the input
    ends, and [total_scenes] counts them. *)
Theorem scene_names_follow_the_headings (lines : list string) :
  ∃ st doc,
    parse_lines initial_state lines = Ok st
    ∧ _parse_text_script lines = Ok doc
    ∧ Scene.name <$> ParsedObject.scenes doc
      = take (length (heading_names lines) + (if pending st then 1 else 0))
             ("SCRIPT TITLE" :: heading_names lines)
    ∧ counter_get "total_scenes" (ParsedObject.stats doc)
      = length (heading_names lines) + (if pending st then 1 else 0).
Proof.
  exists (foldl after_line initial_state lines), (document (foldl after_line initial_state lines)).
  split; [apply parse_lines_spec|]. split; [apply _parse_text_script_spec|].
  rewrite document_total_scenes.
  pose proof (scene_names_foldl lines initial_state) as Hn.
  cbn [initial_state scenes scene_name fmap list_fmap app] in Hn.
  set (st := foldl after_line initial_state lines) in *.
  assert (length (Scene.name <$> scenes st) = length (heading_names lines)) as Hlen.
  { apply (f_equal length) in Hn. rewrite length_app in Hn. cbn in Hn. lia. }
  unfold document. destruct (pending st) eqn:Hp; cbn [ParsedObject.scenes].
  - rewrite <-(length_fmap Scene.name), scene_names_close_scene, Hn.
    rewrite take_ge by (cbn; lia). split; [done|]. cbn. lia.
  - rewrite <-Hn, <-Hlen, Nat.add_0_r, take_app_length.
    by rewrite length_fmap.
Qed.

(** ** Closed scenes are final *)

Lemma scenes_prefix_after_line (st : ParserState.t) (raw : string) :
  scenes st `prefix_of` scenes (after_line st raw).
Proof.
  unfold after_line. destruct (classify (character_name st) raw); cbn [scenes];
    try done; try by destruct (truthy_opt _).
  destruct (scenes_close_scene st) as [es ->]. by apply prefix_app_r.
Qed.

Lemma scenes_prefix_foldl (lines : list string) (st : ParserState.t) :
  scenes st `prefix_of` scenes (foldl after_line st lines).
Proof.
  revert st. induction lines as [|raw lines IH]; intros st; [done|].
  cbn [foldl]. etrans; [apply scenes_prefix_after_line|apply IH].
Qed.

(** X18 (streaming).  The scenes closed after a first part of the input
    are the first scenes of the document of the whole input: reading
    more lines never changes a closed scene. *)
Theorem closed_scenes_are_final (lines more : list string) :
  ∃ st doc,
    parse_lines initial_state lines = Ok st
    ∧ _parse_text_script (lines ++ more) = Ok doc
    ∧ scenes st `prefix_of` ParsedObject.scenes doc.
Proof.
  exists (foldl after_line initial_state lines),
         (document (foldl after_line initial_state (lines ++ more))).
  split; [apply parse_lines_spec|]. split; [apply _parse_text_script_spec|].
  rewrite foldl_app. set (st := foldl after_line initial_state lines).
  pose proof (scenes_prefix_foldl more st) as Hpre.
  unfold document. destruct (pending _); cbn [ParsedObject.scenes]; [|done].
  destruct (scenes_close_scene (foldl after_line st more)) as [es ->].
  by apply prefix_app_r.
Qed.

(** ** Words *)

Lemma words_flush (st : ParserState.t) :
  counter_get "total_words_in_dialogues" (stats st)
    ≤ counter_get "total_words" (stats st) →
  counter_get "total_words_in_dialogues" (stats (flush st))
    ≤ counter_get "total_words" (stats (flush st)).
Proof.
  intros Hle. unfold flush, stats_after_entry. cbn [stats].
  rewrite counter_get_add, counter_get_add_ne by done.
  destruct (truthy_opt _).
  - rewrite counter_get_add, !counter_get_add_ne by done. lia.
  - lia.
Qed.

Lemma words_after_line (st : ParserState.t) (raw : string) :
  counter_get "total_words_in_dialogues" (stats st)
    ≤ counter_get "total_words" (stats st) →
  counter_get "total_words_in_dialogues" (stats (after_line st raw))
    ≤ counter_get "total_words" (stats (after_line st raw)).
Proof.
  intros Hle. pose proof (words_flush st Hle) as Hf. unfold after_line.
  destruct (classify (character_name st) raw); cbn [stats]; try done;
    try by destruct (truthy_opt _).
  unfold close_scene. cbn [stats]. by destruct (pending st).
Qed.

(** X19 (word counts).  The words counted in dialogues never exceed the
    words counted in all. *)
Theorem dialogue_words_within_total_words (lines : list string) :
  ∃ doc,
    _parse_text_script lines = Ok doc
    ∧ counter_get "total_words_in_dialogues" (ParsedObject.stats doc)
      ≤ counter_get "total_words" (ParsedObject.stats doc).
Proof.
  eexists. split; [apply _parse_text_script_spec|].
  assert (∀ st, counter_get "total_words_in_dialogues" (stats st)
                  ≤ counter_get "total_words" (stats st) →
                counter_get "total_words_in_dialogues" (stats (foldl after_line st lines))
                  ≤ counter_get "total_words" (stats (foldl after_line st lines))) as Hfold.
  { induction lines as [|raw lines IH]; intros st Hle; [done|].
    cbn [foldl]. by apply IH, words_after_line. }
  specialize (Hfold initial_state ltac:(done)).
  set (st := foldl after_line initial_state lines) in *.
  unfold document. cbn [ParsedObject.stats]. unfold counter_get at 1 2.
  rewrite !lookup_insert_ne by done.
  destruct (pending st); [|exact Hfold].
  unfold close_scene. cbn [stats]. destruct (pending st); [|exact Hfold].
  by apply words_flush.
Qed.

(** ** Scene headings, exactly *)

Lemma many1_then_inv (p : ascii → bool) (k : string → bool) (s : string) :
  many1_then p k s = true →
  ∃ a b, s = a +:+ b ∧ truthy a = true ∧ str_all p a = true ∧ k b = true.
Proof.
  induction s as [|c s IH]; [done|]. cbn [many1_then].
  intros [Hc [Hm|Hk]%orb_prop]%andb_prop.
  - destruct (IH Hm) as (a & b & -> & Ha & Hpa & Hkb).
    exists (String c a), b. cbn [str_all]. by rewrite Hc, Hpa.
  - exists (String c ""), s. cbn [str_all]. by rewrite Hc, Hk.
Qed.

Lemma scene_pattern_inv (line : string) :
  re_match scene_pattern line = true →
  ∃ ds rest, line = ds +:+ String TAB rest
             ∧ truthy ds = true ∧ str_all isdigit ds = true ∧ truthy rest = true.
Proof.
  unfold re_match, scene_pattern. cbn [re_match_from andb].
  intros (ds & b & -> & Hds & Hd & Hk)%many1_then_inv.
  destruct b as [|c rest]; [done|]. apply andb_prop in Hk as [Hc Hrest].
  apply bool_decide_eq_true in Hc as ->. exists ds, rest.
  repeat split; try done. by destruct rest.
Qed.

(** X20 (scene headings).  On a line without newline, [_get_scene_name]
    returns a name exactly when the line is a non-empty run of digits,
    a tab and a non-empty remainder, and the name is then the part of
    the remainder before its first tab. *)
Theorem get_scene_name_characterised (line new_name : string) :
  str_all re_dot line = true →
  _get_scene_name line = Ok (Some new_name)
  ↔ ∃ ds rest, line = ds +:+ String TAB rest
               ∧ truthy ds = true ∧ str_all isdigit ds = true
               ∧ truthy rest = true
               ∧ str_split_on TAB rest !! 0 = Some new_name.
Proof.
  intros Hline. split.
  - intros Hg. destruct (re_match scene_pattern line) eqn:Hm.
    + destruct (scene_pattern_inv line Hm) as (ds & rest & -> & Hds & Hd & Hrest).
      rewrite str_all_app in Hline. apply andb_prop in Hline as [_ Hr].
      cbn [str_all] in Hr. apply andb_prop in Hr as [_ Hr].
      rewrite _get_scene_name_first_field in Hg by done. injection Hg as Hn.
      exists ds, rest. by repeat split.
    + unfold _get_scene_name in Hg. by rewrite Hm in Hg.
  - intros (ds & rest & -> & Hds & Hd & Hrest & Hn).
    rewrite str_all_app in Hline. apply andb_prop in Hline as [_ Hr].
    cbn [str_all] in Hr. apply andb_prop in Hr as [_ Hr].
    by rewrite _get_scene_name_first_field, Hn.
Qed.

Lemma get_scene_name_characterised_witness :
  _get_scene_name ("283" +:+ tab +:+ "INT.  LABORATORY") = Ok (Some "INT.  LABORATORY")
  ↔ ∃ ds rest, "283" +:+ tab +:+ "INT.  LABORATORY" = ds +:+ String TAB rest
               ∧ truthy ds = true ∧ str_all isdigit ds = true
               ∧ truthy rest = true
               ∧ str_split_on TAB rest !! 0 = Some "INT.  LABORATORY".
Proof.
  apply (get_scene_name_characterised ("283" +:+ tab +:+ "INT.  LABORATORY")).
  vm_compute. reflexivity.
Defined.

(** ** Text accumulation, in general *)

Lemma chop_hyphen_last (v : string) :
  chop_hyphen v
  = if bool_decide (str_last v = Some HYPHEN)
    then str_take (String.length v - 1) v else v.
Proof.
  destruct (str_snoc_cases v) as [->|(body & c & ->)]; [done|].
  rewrite chop_hyphen_snoc.
  assert (str_last (body +:+ String c "") = Some c) as ->.
  { induction body as [|d body IH]; [done|]. rewrite str_app_cons.
    cbn [str_last]. rewrite IH. by destruct body. }
  rewrite str_length_app. cbn [String.length].
  replace (String.length body + 1 - 1) with (String.length body) by lia.
  rewrite str_take_app.
  case_bool_decide as Hc; [by rewrite bool_decide_eq_true_2 by congruence|].
  by rewrite bool_decide_eq_false_2 by congruence.
Qed.

(** X21 (text accumulation).  Wherever the position of the buffer is,
    [_concatenate_text] returns the buffer positioned at its end and
    holding the old contents, less their last character when it is a
    hyphen, followed by the line stripped of white space, in lower case,
    and one space. *)
Theorem concatenate_text_contract (buffer : StringIO) (new_line : string) :
  ∃ b,
    _concatenate_text buffer new_line = Ok b
    ∧ tell b = Z.of_nat (String.length (getvalue b))
    ∧ getvalue b
      = (if bool_decide (str_last (getvalue buffer) = Some HYPHEN)
         then str_take (String.length (getvalue buffer) - 1) (getvalue buffer)
         else getvalue buffer)
        +:+ normalised new_line.
Proof.
  eexists. split; [apply _concatenate_text_spec|]. cbv zeta.
  split; [done|]. cbn [getvalue]. by rewrite chop_hyphen_last.
Qed.

(** ** Entries *)

Lemma lower_char_idemp (c : ascii) : lower_char (lower_char c) = lower_char c.
Proof. destruct c as [[] [] [] [] [] [] [] []]; vm_compute; reflexivity. Qed.

Lemma str_lower_idemp (s : string) : str_lower (str_lower s) = str_lower s.
Proof.
  induction s as [|c s IH]; [done|]. cbn [str_lower].
  by rewrite lower_char_idemp, IH.
Qed.

Lemma str_lower_app (s t : string) :
  str_lower (s +:+ t) = str_lower s +:+ str_lower t.
Proof.
  induction s as [|c s IH]; [done|]. rewrite str_app_cons. cbn [str_lower].
  by rewrite IH.
Qed.

Lemma appended_lower (b : StringIO) (line : string) :
  spaced (getvalue b) → str_lower (getvalue b) = getvalue b →
  str_lower (getvalue (appended b line)) = getvalue (appended b line).
Proof.
  intros Hs Hl. rewrite appended_value by done.
  by rewrite !str_lower_app, str_lower_idemp, Hl.
Qed.

Lemma all_entries_snoc (scs : list Scene.t) (s : Scene.t) :
  all_entries (scs ++ [s]) = all_entries scs ++ Scene.entries s.
Proof.
  unfold all_entries. rewrite bind_app. cbn [mbind list_bind]. by rewrite app_nil_r.
Qed.

Lemma entry_ok_entry_of (st : ParserState.t) :
  clean st → pending st = true → entry_ok (entry_of st).
Proof.
  intros [Hwf Hsl Hdl Hn _ _] Hp. rewrite (pending_wf st Hwf) in Hp.
  unfold entry_of. split; cbn [Entry.description Entry.dialogue].
  - destruct (character_name st) as [[|c who]|]; cbn [truthy_opt truthy] in Hp;
      [|by right|]; rewrite orb_false_r in Hp; left;
      by destruct (getvalue (scene_text st)).
  - split; [done|apply Hwf].
  - intros d. destruct (character_name st) as [[|c who]|] eqn:Hc; [done| |done].
    intros [= <-]. cbn [Dialogue.character Dialogue.text].
    split; [done|]. split; [by apply Hn|]. split; [done|apply Hwf].
Qed.

Lemma clean_flush (st : ParserState.t) :
  clean st → pending st = true → clean (flush st).
Proof.
  intros Hc Hp. pose proof (entry_ok_entry_of st Hc Hp) as He.
  destruct Hc as [Hwf Hsl Hdl Hn Hes Hscs].
  split; [apply wf_flush|done|done|done| |done].
  cbn [flush entries]. apply Forall_app. split; [done|by constructor].
Qed.

Lemma clean_flush_if_active (st : ParserState.t) :
  clean st → clean (if truthy_opt (character_name st) then flush st else st).
Proof.
  intros Hc. destruct (truthy_opt (character_name st)) eqn:Ht; [|done].
  apply clean_flush; [done|]. unfold pending. by rewrite Ht, orb_true_r.
Qed.

Lemma clean_closed (st : ParserState.t) (new_name : string) :
  clean st →
  clean (mk StringIO_new StringIO_new new_name None
            (stats (close_scene st)) (character_vocabulary (close_scene st))
            (scenes (close_scene st)) []).
Proof.
  intros Hc.
  assert (clean (if pending st then flush st else st)) as [Hwf _ _ _ Hes Hscs].
  { destruct (pending st) eqn:Hp; [by apply clean_flush|done]. }
  split; [by split; try left|done|done|done|constructor|].
  unfold close_scene. cbn [scenes]. rewrite all_entries_snoc. cbn [Scene.entries].
  apply Forall_app. by destruct (pending st).
Qed.

Lemma clean_after_line (st : ParserState.t) (raw : string) :
  clean st → clean (after_line st raw).
Proof.
  intros Hc. pose proof (wf_after_line st raw (clean_wf st Hc)) as Hwf.
  pose proof (clean_flush_if_active st Hc) as Hf.
  revert Hwf. unfold after_line.
  destruct (classify (character_name st) raw) eqn:Hk; intros Hwf; [done|..].
  - by apply clean_closed.
  - destruct Hf as [_ Hsl Hdl _ Hes Hscs]. split; try done.
    cbn [character_name]. intros who [= <-]. apply strip_chars_idemp.
  - destruct Hc as [Hwf0 Hsl Hdl Hn Hes Hscs]. split; try done.
    cbn [dialogue_text]. apply appended_lower; [apply Hwf0|done].
  - destruct Hf as [Hwf1 Hsl Hdl Hn Hes Hscs]. split; try done.
    cbn [scene_text]. apply appended_lower; [apply Hwf1|done].
Qed.

Lemma clean_foldl (lines : list string) (st : ParserState.t) :
  clean st → clean (foldl after_line st lines).
Proof.
  revert st. induction lines as [|raw lines IH]; intros st Hc; [done|].
  cbn [foldl]. by apply IH, clean_after_line.
Qed.

Lemma clean_initial_state : clean initial_state.
Proof.
  split; [apply wf_initial_state|done|done|done|constructor|constructor].
Qed.

Lemma document_entries_ok (lines : list string) :
  ∃ doc,
    _parse_text_script lines = Ok doc
    ∧ Forall entry_ok (all_entries (ParsedObject.scenes doc)).
Proof.
  eexists. split; [apply _parse_text_script_spec|].
  pose proof (clean_foldl lines initial_state clean_initial_state) as Hc.
  set (st := foldl after_line initial_state lines) in *.
  unfold document. destruct (pending st) eqn:Hp; cbn [ParsedObject.scenes].
  - apply (clean_scenes _ (clean_closed st "" Hc)).
  - apply Hc.
Qed.

(** X22 (no empty entry).  Every entry of the document has a non-empty
    description or a dialogue, and every dialogue has a non-empty
    character name without white space around it. *)
Theorem entries_are_not_empty (lines : list string) :
  ∃ doc,
    _parse_text_script lines = Ok doc
    ∧ ∀ e, e ∈ all_entries (ParsedObject.scenes doc) →
           (Entry.description e ≠ "" ∨ Entry.dialogue e ≠ None)
           ∧ ∀ d, Entry.dialogue e = Some d →
                  Dialogue.character d ≠ ""
                  ∧ str_strip (Dialogue.character d) = Dialogue.character d.
Proof.
  destruct (document_entries_ok lines) as (doc & Hdoc & Hall).
  exists doc. split; [done|]. intros e He.
  rewrite Forall_forall in Hall. destruct (Hall e He) as [Hne _ Hd].
  split; [done|]. intros d Hed. by destruct (Hd d Hed) as (? & ? & _).
Qed.

(** X23 (normalised text).  Every description and every dialogue text of
    the document is in lower case and is empty or ends with a space. *)
Theorem texts_are_normalised (lines : list string) :
  ∃ doc,
    _parse_text_script lines = Ok doc
    ∧ ∀ e, e ∈ all_entries (ParsedObject.scenes doc) →
           normal_text (Entry.description e)
           ∧ ∀ d, Entry.dialogue e = Some d → normal_text (Dialogue.text d).
Proof.
  destruct (document_entries_ok lines) as (doc & Hdoc & Hall).
  exists doc. split; [done|]. intros e He.
  rewrite Forall_forall in Hall. destruct (Hall e He) as [_ Hn Hd].
  split; [done|]. intros d Hed. by destruct (Hd d Hed) as (_ & _ & ?).
Qed.

(** ** Blocks of lines *)

Lemma str_concat_snoc (ss : list string) (s : string) :
  str_concat (ss ++ [s]) = str_concat ss +:+ s.
Proof.
  unfold str_concat. induction ss as [|x ss IH]; cbn [app foldr].
  - apply str_app_nil_r.
  - by rewrite IH, str_app_assoc.
Qed.

Lemma appended_at_end_value (v line : string) :
  spaced v →
  appended (mkStringIO v (String.length v)) line
  = mkStringIO (v +:+ normalised line) (String.length (v +:+ normalised line)).
Proof.
  intros Hv. unfold appended, normalised. cbn [getvalue].
  by rewrite spaced_chop_hyphen.
Qed.

(** The description buffer after a run of description lines read with
    no character speaking. *)
Lemma foldl_descriptions (lines : list string) (v nm : string)
    (stt : Counter) (voc : gset string) (scs : list Scene.t) (es : list Entry.t) :
  spaced v →
  Forall (λ raw, classify None raw = Description) lines →
  foldl after_line
    (mk (mkStringIO v (String.length v)) StringIO_new nm None stt voc scs es) lines
  = let v' := v +:+ str_concat
                      ((λ raw, normalised (strip_chars (is_char LF) raw)) <$> lines) in
    mk (mkStringIO v' (String.length v')) StringIO_new nm None stt voc scs es.
Proof.
  intros Hv Hall. revert v Hv. induction Hall as [|raw lines Hraw _ IH]; intros v Hv.
  { cbn. by rewrite str_app_nil_r. }
  cbn [foldl]. rewrite after_line_description by done. cbv zeta.
  cbn [character_name truthy_opt scene_text dialogue_text scene_name stats
       character_vocabulary scenes entries].
  rewrite appended_at_end_value by done. rewrite IH.
  - cbv zeta. cbn [fmap list_fmap str_concat foldr]. by rewrite !str_app_assoc.
  - right. unfold normalised. rewrite <-str_app_assoc. eauto.
Qed.

(** X24 (description block).  An input of description lines only, one at
    least, gives the title scene with a single entry without dialogue,
    whose description is the concatenation of the lines, each stripped,
    in lower case and followed by one space. *)
Theorem descriptions_make_one_entry (lines : list string) :
  lines ≠ [] →
  Forall (λ raw, classify None raw = Description) lines →
  ∃ doc,
    _parse_text_script lines = Ok doc
    ∧ ParsedObject.scenes doc
      = [Scene.mk "SCRIPT TITLE"
           [Entry.mk (str_concat ((λ raw, normalised (strip_chars (is_char LF) raw))
                                    <$> lines)) None]]
    ∧ ParsedObject.character_vocabulary doc = [].
Proof.
  intros Hne Hall. eexists. split; [apply _parse_text_script_spec|].
  change initial_state
    with (mk (mkStringIO "" (String.length "")) StringIO_new "SCRIPT TITLE" None
             ∅ ∅ [] []).
  rewrite foldl_descriptions by (done || by left). cbv zeta.
  rewrite str_app_nil_l.
  set (v := str_concat _).
  assert (truthy v = true) as Hv.
  { subst v. destruct Hall as [|raw lines' _ _]; [done|].
    cbn [fmap list_fmap str_concat foldr]. unfold normalised at 1.
    by destruct (str_lower _). }
  unfold document, pending, tell. cbn [scene_text position character_name truthy_opt].
  assert ((Z.of_nat (String.length v) >? 0)%Z = true) as ->.
  { destruct v; [done|]. cbn [String.length]. rewrite Z.gtb_ltb.
    by destruct (Z.ltb_spec 0 (Z.of_nat (S (String.length v)))); [|lia]. }
  cbn [orb]. unfold close_scene, pending, tell.
  cbn [scene_text position character_name truthy_opt].
  assert ((Z.of_nat (String.length v) >? 0)%Z = true) as ->.
  { destruct v; [done|]. cbn [String.length]. rewrite Z.gtb_ltb.
    by destruct (Z.ltb_spec 0 (Z.of_nat (S (String.length v)))); [|lia]. }
  cbn [orb]. split; [done|]. by vm_compute.
Qed.

Lemma descriptions_make_one_entry_witness :
  ∃ doc,
    _parse_text_script ["FADE IN:"; tabs 1 "Somewhere in the Nile"] = Ok doc
    ∧ ParsedObject.scenes doc
      = [Scene.mk "SCRIPT TITLE" [Entry.mk "fade in: somewhere in the nile " None]].
Proof.
  destruct (descriptions_make_one_entry ["FADE IN:"; tabs 1 "Somewhere in the Nile"])
    as (doc & Hdoc & Hs & _).
  - done.
  - repeat constructor.
  - exists doc. split; [exact Hdoc|]. rewrite Hs. vm_compute. reflexivity.
Defined.

Lemma after_line_continuation (st : ParserState.t) (raw : string) :
  classify (character_name st) raw = Continuation →
  after_line st raw
  = mk (scene_text st)
       (appended (dialogue_text st) (strip_chars (is_char LF) raw))
       (scene_name st) (character_name st) (stats st) (character_vocabulary st)
       (scenes st) (entries st).
Proof. intros Hk. unfold after_line. by rewrite Hk. Qed.

Lemma after_line_cue (st : ParserState.t) (raw : string) :
  classify (character_name st) raw = Cue →
  after_line st raw
  = let st' := if truthy_opt (character_name st) then flush st else st in
    mk (scene_text st') (dialogue_text st') (scene_name st')
       (Some (str_strip (strip_chars (is_char LF) raw)))
       (stats st') (character_vocabulary st') (scenes st') (entries st').
Proof. intros Hk. unfold after_line. by rewrite Hk. Qed.

Lemma foldl_continuations (lines : list string) (v nm who : string) (sb : StringIO)
    (stt : Counter) (voc : gset string) (scs : list Scene.t) (es : list Entry.t) :
  spaced v →
  Forall (λ raw, classify (Some who) raw = Continuation) lines →
  foldl after_line
    (mk sb (mkStringIO v (String.length v)) nm (Some who) stt voc scs es) lines
  = let v' := v +:+ str_concat
                      ((λ raw, normalised (strip_chars (is_char LF) raw)) <$> lines) in
    mk sb (mkStringIO v' (String.length v')) nm (Some who) stt voc scs es.
Proof.
  intros Hv Hall. revert v Hv. induction Hall as [|raw lines Hraw _ IH]; intros v Hv.
  { cbn. by rewrite str_app_nil_r. }
  cbn [foldl]. rewrite after_line_continuation by done.
  cbn [character_name scene_text dialogue_text scene_name stats
       character_vocabulary scenes entries].
  rewrite appended_at_end_value by done. rewrite IH.
  - cbv zeta. cbn [fmap list_fmap str_concat foldr]. by rewrite !str_app_assoc.
  - right. unfold normalised. rewrite <-str_app_assoc. eauto.
Qed.

Lemma cue_name_classify (active : option string) (raw who : string) :
  cue_name raw = Some who →
  classify active raw = Cue
  ∧ str_strip (strip_chars (is_char LF) raw) = who ∧ truthy who = true.
Proof.
  unfold cue_name. rewrite (classify_none active).
  destruct (classify active raw); try done.
  destruct (str_strip _) as [|c w]; [done|]. by intros [= <-].
Qed.

(** X25 (dialogue block).  A cue line with a non-empty name followed by
    dialogue lines gives, even though the input ends in mid-dialogue,
    the title scene with a single entry: an empty description and the
    dialogue of that character, whose text is the concatenation of the
    dialogue lines, each stripped, in lower case and followed by one
    space; the vocabulary holds that character alone. *)
Theorem cue_and_dialogue_make_one_entry (cue who : string) (lines : list string) :
  cue_name cue = Some who →
  Forall (λ raw, classify (Some who) raw = Continuation) lines →
  ∃ doc,
    _parse_text_script (cue :: lines) = Ok doc
    ∧ ParsedObject.scenes doc
      = [Scene.mk "SCRIPT TITLE"
           [Entry.mk ""
              (Some (Dialogue.mk who
                       (str_concat ((λ raw, normalised (strip_chars (is_char LF) raw))
                                      <$> lines))))]]
    ∧ ParsedObject.character_vocabulary doc = [who].
Proof.
  intros Hcue Hall. eexists. split; [apply _parse_text_script_spec|].
  destruct (cue_name_classify None cue who Hcue) as (Hk & Hwho & Ht).
  cbn [foldl]. rewrite (after_line_cue initial_state cue Hk), Hwho. cbv zeta.
  cbn [initial_state character_name truthy_opt scene_text dialogue_text scene_name
       stats character_vocabulary scenes entries].
  change StringIO_new with (mkStringIO "" (String.length "")).
  rewrite foldl_continuations by (done || by left). cbv zeta.
  rewrite str_app_nil_l. set (v := str_concat _).
  unfold document, close_scene, pending.
  cbn [scene_text character_name truthy_opt]. rewrite Ht, !orb_true_r.
  cbn [ParsedObject.scenes ParsedObject.character_vocabulary flush scenes entries
       scene_name character_vocabulary app entry_of vocabulary_after_entry
       character_name getvalue StringIO_new scene_text dialogue_text].
  destruct who as [|c w]; [done|]. split; [done|].
  rewrite union_empty_l_L, elements_singleton. done.
Qed.

Lemma cue_and_dialogue_make_one_entry_witness :
  ∃ doc,
    _parse_text_script [tabs 6 "CHARACTER X"; tabs 4 "Some dialogue."] = Ok doc
    ∧ ParsedObject.scenes doc
      = [Scene.mk "SCRIPT TITLE"
           [Entry.mk "" (Some (Dialogue.mk "CHARACTER X" "some dialogue. "))]]
    ∧ ParsedObject.character_vocabulary doc = ["CHARACTER X"].
Proof.
  destruct (cue_and_dialogue_make_one_entry (tabs 6 "CHARACTER X") "CHARACTER X"
              [tabs 4 "Some dialogue."])
    as (doc & Hdoc & Hs & Hv).
  - vm_compute. reflexivity.
  - repeat constructor.
  - exists doc. split; [exact Hdoc|]. rewrite Hs, Hv. split; [|done].
    vm_compute. reflexivity.
Defined.

(** ** Parsing a text *)

Lemma str_rev_app_spec (s acc : string) :
  String.rev_app s acc = String.rev s +:+ acc.
Proof.
  unfold String.rev. revert acc. induction s as [|c s IH]; intros acc; [done|].
  cbn [String.rev_app]. rewrite (IH (String c acc)), (IH (String c "")).
  by rewrite str_app_assoc.
Qed.

Lemma str_rev_cons (c : ascii) (s : string) :
  String.rev (String c s) = String.rev s +:+ String c "".
Proof. unfold String.rev at 1. cbn [String.rev_app]. apply str_rev_app_spec. Qed.

Lemma rstrip_snoc (p : ascii → bool) (s : string) (c : ascii) :
  p c = true → rstrip p (s +:+ String c "") = rstrip p s.
Proof.
  intros Hc. induction s as [|d s IH].
  - rewrite str_app_nil_l. cbn. by rewrite Hc.
  - rewrite str_app_cons. cbn [rstrip]. by rewrite IH.
Qed.

Lemma lstrip_snoc (p : ascii → bool) (s : string) (c : ascii) :
  p c = true →
  lstrip p (s +:+ String c "")
  = match lstrip p s with
    | "" => ""
    | t => t +:+ String c ""
    end.
Proof.
  intros Hc. induction s as [|d s IH].
  - rewrite str_app_nil_l. cbn. by rewrite Hc.
  - rewrite str_app_cons. cbn [lstrip]. by destruct (p d).
Qed.

Lemma strip_chars_snoc (p : ascii → bool) (s : string) (c : ascii) :
  p c = true → strip_chars p (s +:+ String c "") = strip_chars p s.
Proof.
  intros Hc. unfold strip_chars. rewrite lstrip_snoc by done.
  destruct (lstrip p s) as [|d t]; [done|]. by rewrite rstrip_snoc.
Qed.

Lemma after_line_newline (st : ParserState.t) (s : string) :
  after_line st (s +:+ String LF "") = after_line st s.
Proof.
  rewrite <-(after_line_strip st (s +:+ String LF "")), <-(after_line_strip st s).
  by rewrite strip_chars_snoc.
Qed.

Lemma foldl_readlines_newline (text cur : string) (st : ParserState.t) :
  foldl after_line st (readlines_from cur (text +:+ String LF ""))
  = foldl after_line st (readlines_from cur text).
Proof.
  revert cur st. induction text as [|c text IH]; intros cur st.
  - rewrite str_app_nil_l. cbn [readlines_from]. change (is_char LF LF) with true.
    cbn [readlines_from truthy foldl]. rewrite str_rev_cons, after_line_newline.
    destruct cur as [|d cur]; [|done]. by rewrite after_line_blank.
  - rewrite str_app_cons. cbn [readlines_from].
    destruct (is_char LF c); cbn [foldl]; apply IH.
Qed.

(** X26 (final newline).  Whether the text of the file ends with a
    newline makes no difference: one more newline at its end gives the
    same document. *)
Theorem final_newline_makes_no_difference (text : string) :
  from_text_file (text +:+ String LF "") = from_text_file text.
Proof.
  unfold from_text_file, readlines.
  by rewrite !_parse_text_script_spec, foldl_readlines_newline.
Qed.

Lemma str_concat_readlines_from (text cur : string) :
  str_concat (readlines_from cur text) = String.rev cur +:+ text.
Proof.
  revert cur. induction text as [|c text IH]; intros cur.
  - cbn [readlines_from]. rewrite str_app_nil_r.
    by destruct cur; cbn [truthy str_concat foldr]; rewrite ?str_app_nil_r.
  - cbn [readlines_from]. destruct (is_char LF c) eqn:Hc.
    + cbn [str_concat foldr]. fold (str_concat (readlines_from "" text)).
      rewrite IH, str_rev_cons, str_app_assoc. done.
    + rewrite IH, str_rev_cons, str_app_assoc. done.
Qed.

(** The lines read from a text are the text cut after each newline: put
    together they give the text back, none is empty, and a newline
    occurs only at the end of a line. *)
Lemma readlines_cuts_after_newlines (text : string) :
  str_concat (readlines text) = text
  ∧ Forall (λ line, ∃ body, str_all re_dot body = true
                            ∧ (line = body +:+ String LF ""
                               ∨ (line = body ∧ body ≠ "")))
           (readlines text).
Proof.
  split; [apply (str_concat_readlines_from text "")|].
  unfold readlines.
  assert (∀ cur, str_all re_dot (String.rev cur) = true →
            Forall (λ line, ∃ body, str_all re_dot body = true
                                    ∧ (line = body +:+ String LF ""
                                       ∨ (line = body ∧ body ≠ "")))
                   (readlines_from cur text)) as H; [|by apply H].
  induction text as [|c text IH]; intros cur Hcur.
  - cbn [readlines_from]. destruct cur as [|d cur]; [constructor|].
    cbn [truthy]. constructor; [|constructor].
    exists (String.rev (String d cur)). split; [done|]. right. split; [done|].
    rewrite str_rev_cons. by destruct (String.rev cur).
  - cbn [readlines_from]. destruct (is_char LF c) eqn:Hc.
    + constructor; [|by apply IH]. exists (String.rev cur). split; [done|]. left.
      apply bool_decide_eq_true in Hc as ->. apply str_rev_cons.
    + apply IH. rewrite str_rev_cons, str_all_app, Hcur. cbn [str_all andb].
      unfold re_dot. by rewrite Hc.
Qed.
